(** * Flashcards: deck catalogue and quiz session of [flashcards.py]

    A shallow embedding of the deck functions ([find_decks], [load_deck]),
    of the [Flashcards] session class and of the callbacks of
    [FlashcardApp], with the properties the specification states about them
    and further properties read off the code.

    Conventions of the embedding:
    - a Python exception is a value of [exn]; a call that may raise returns a
      [result];
    - a method that mutates [self] is a function from the state before the
      call to the outcome and the state after it;  an exception leaves the
      state as the statements executed before it made it;
    - the module-level generator of [random] is an explicit [Rng] that is
      threaded through [shuffle];
    - the file system is a record of the three queries the program makes;
      a file that parses holds an object in the deck file format or a
      document that is no object;
    - the widgets of the interface are kept as the texts, buttons and list
      items the code puts into them, and the event loop as the events it
      hands to the callbacks. *)

From Stdlib Require Import Strings.String Strings.Ascii.
From stdpp Require Import base decidable option list strings sorting pretty.

(** ** Exceptions and results *)

Inductive exn_class :=
  IndexError | RuntimeError | OSError | ValueError | AttributeError.

Record exn := Exn { exn_cls : exn_class; exn_msg : string }.

Inductive result (A : Type) :=
| Ok (a : A)
| Raise (e : exn).

Arguments Ok {A} a.
Arguments Raise {A} e.

#[global] Instance exn_class_eq_dec : EqDecision exn_class.
Proof. solve_decision. Defined.

#[global] Instance exn_eq_dec : EqDecision exn.
Proof. solve_decision. Defined.

(** The specification's [LoadError] is the [RuntimeError] that [load_deck]
    raises. *)
Definition is_LoadError {A} (r : result A) : bool :=
  match r with
  | Raise e => bool_decide (exn_cls e = RuntimeError)
  | Ok _ => false
  end.

(** ** Cards *)

(** A card is the dictionary of one record of the deck file; [==] on cards is
    equality of all fields. *)
Record Card := mkCard {
  question : string;
  choices : list string;
  answer : string;
  explanation : option string
}.

#[global] Instance Card_eq_dec : EqDecision Card.
Proof. solve_decision. Defined.

(** ** The generator of [random] *)

(** An infinite tape of raw draws and the position of the next one. *)
Record Rng := mkRng { tape : nat -> nat; pos : nat }.

(** [randbelow n] for [0 < n]: a number in [0, n). *)
Definition randbelow (n : nat) (g : Rng) : nat * Rng :=
  (tape g (pos g) mod n, mkRng (tape g) (S (pos g))).

Section Shuffle.
Context {A : Type}.

(** [x[i], x[j] = x[j], x[i]] *)
Definition swap (i j : nat) (x : list A) : list A :=
  match x !! j, x !! i with
  | Some xj, Some xi => <[j := xi]> (<[i := xj]> x)
  | _, _ => x
  end.

(** The loop of [random.shuffle]:
    [for i in reversed(range(1, len(x))): j = randbelow(i + 1); swap]. *)
Fixpoint shuffle_loop (i : nat) (x : list A) (g : Rng) : list A * Rng :=
  match i with
  | 0 => (x, g)
  | S i' =>
      let (j, g') := randbelow (S i) g in
      shuffle_loop i' (swap i j x) g'
  end.

Definition shuffle (x : list A) (g : Rng) : list A * Rng :=
  shuffle_loop (length x - 1) x g.
End Shuffle.

(** ** Game state *)

Record Flashcards := mkFlashcards {
  cards : list Card;
  index : nat;
  score : nat;
  total : nat;
  missed_cards : list Card
}.

Definition set_cards (v : list Card) (self : Flashcards) : Flashcards :=
  mkFlashcards v (index self) (score self) (total self) (missed_cards self).
Definition set_index (v : nat) (self : Flashcards) : Flashcards :=
  mkFlashcards (cards self) v (score self) (total self) (missed_cards self).
Definition set_score (v : nat) (self : Flashcards) : Flashcards :=
  mkFlashcards (cards self) (index self) v (total self) (missed_cards self).
Definition set_total (v : nat) (self : Flashcards) : Flashcards :=
  mkFlashcards (cards self) (index self) (score self) v (missed_cards self).
Definition set_missed_cards (v : list Card) (self : Flashcards) : Flashcards :=
  mkFlashcards (cards self) (index self) (score self) (total self) v.

(** A method: the outcome of the call and [self] after it. *)
Definition Method (A : Type) : Type := Flashcards -> result A * Flashcards.

Definition ret {A} (a : A) : Method A := fun self => (Ok a, self).

Definition bind {A B} (m : Method A) (k : A -> Method B) : Method B :=
  fun self =>
    match m self with
    | (Ok a, self') => k a self'
    | (Raise e, self') => (Raise e, self')
    end.

Definition gets {A} (f : Flashcards -> A) : Method A :=
  fun self => (Ok (f self), self).

Definition modify (f : Flashcards -> Flashcards) : Method unit :=
  fun self => (Ok tt, f self).

Definition lift {A} (f : Flashcards -> result A) : Method A :=
  fun self => (f self, self).

Notation "x <- m ;; k" := (bind m (fun x => k))
  (at level 200, m at level 99, k at level 200, right associativity).
Notation "m ;;; k" := (bind m (fun _ => k))
  (at level 200, k at level 200, right associativity).

Module Flashcards.

(** [__init__]: [cards[:]] is a copy with the same elements. *)
Definition init (cs : list Card) : Flashcards :=
  {| cards := cs; index := 0; score := 0; total := length cs;
     missed_cards := [] |}.

(** [self.cards[self.index]]; the index is never negative. *)
Definition current (self : Flashcards) : result Card :=
  match cards self !! index self with
  | Some c => Ok c
  | None => Raise (Exn IndexError "list index out of range")
  end.

Definition has_next (self : Flashcards) : bool :=
  index self <? length (cards self).

Definition check (selected : string) : Method bool :=
  c <- lift current ;;
  if decide (selected = answer c) then
    modify (fun self => set_score (score self + 1) self) ;;;
    ret true
  else
    c' <- lift current ;;
    missed <- gets missed_cards ;;
    (if decide (c' ∈ missed) then ret tt
     else
       c'' <- lift current ;;
       modify (fun self => set_missed_cards (missed_cards self ++ [c'']) self)) ;;;
    ret false.

Definition next : Method unit :=
  modify (fun self => set_index (index self + 1) self).

(** [reset_for_review] also advances the generator. *)
Definition reset_for_review (g : Rng) (self : Flashcards) : Flashcards * Rng :=
  let self := set_cards (missed_cards self) self in
  let (cs, g') := shuffle (cards self) g in
  let self := set_cards cs self in
  let self := set_missed_cards [] self in
  let self := set_index 0 self in
  let self := set_score 0 self in
  let self := set_total (length (cards self)) self in
  (self, g').

End Flashcards.

(** ** Text operations of the deck catalogue *)

(** A [string] is the UTF-8 encoding of the Python text, so that the order
    of [String.compare] is the order of code points.

    [str.lower] on one character: the letters [A]..[Z] go to [a]..[z].
    What [str.lower] does outside ASCII never makes or removes a character
    of [".json"], the only use of [lower] here; those bytes are left as
    they are. *)
Definition lower_char (c : ascii) : ascii :=
  let n := nat_of_ascii c in
  if (65 <=? n) && (n <=? 90) then ascii_of_nat (n + 32) else c.

Fixpoint lower (s : string) : string :=
  match s with
  | EmptyString => EmptyString
  | String c s' => String (lower_char c) (lower s')
  end.

(** [s[n:]] *)
Fixpoint str_drop (n : nat) (s : string) : string :=
  match n, s with
  | 0, _ => s
  | S n', String _ s' => str_drop n' s'
  | S _, EmptyString => EmptyString
  end.

(** [s.endswith(suffix)] *)
Definition endswith (s suffix : string) : bool :=
  (String.length suffix <=? String.length s) &&
  bool_decide (str_drop (String.length s - String.length suffix) s = suffix).

(** [s.startswith(prefix)] *)
Definition startswith (s prefix : string) : bool := String.prefix prefix s.

(** [os.path.join(a, b)] (POSIX). *)
Definition join (a b : string) : string :=
  if startswith b "/" then b
  else if bool_decide (a = "") || endswith a "/" then a +:+ b
  else a +:+ "/" +:+ b.

(** What [join] puts in front of a name that does not start with the
    separator. *)
Definition dir_prefix (directory : string) : string :=
  if bool_decide (directory = "") || endswith directory "/"
  then directory else directory +:+ "/".

(** [sorted] on strings: a stable merge sort in code-point order. *)
Definition sorted (l : list string) : list string := merge_sort String.le l.

(** ** The file system, as the program queries it *)

(** A JSON object in the deck file format: its ["title"], when present, is
    text and its ["cards"], when present, is a list of card records. *)
Record Document := mkDocument {
  doc_title : option string;
  doc_cards : option (list Card)
}.

(** The Python types of the JSON values that are not objects. *)
Inductive py_type :=
  py_list | py_str | py_int | py_float | py_bool | py_NoneType.

Definition type_name (t : py_type) : string :=
  match t with
  | py_list => "list"
  | py_str => "str"
  | py_int => "int"
  | py_float => "float"
  | py_bool => "bool"
  | py_NoneType => "NoneType"
  end.

(** What [json.load] returns: [JObject data] for an object in the deck file
    format, [JOther t] for a document that is no object at all (a list,
    text, a number, [true], [false] or [null]), a value of Python type [t]
    that has no [get].  An object outside the format (a title that is not
    text, cards that are not a list of card records) is not represented:
    the statements below that speak of a parsed file speak of these two
    kinds of document. *)
Inductive Json :=
| JObject (data : Document)
| JOther (t : py_type).

(** The cards a parsed document holds. *)
Definition cards_in (j : Json) : list Card :=
  match j with
  | JObject data => default [] (doc_cards data)
  | JOther _ => []
  end.

(** [isdir] is [os.path.isdir]; [listdir] is [os.listdir], the names of the
    entries in arbitrary order; [read_json] is [open(path, "r",
    encoding="utf-8")] followed by [json.load]. *)
Record FileSystem := mkFileSystem {
  isdir : string -> bool;
  listdir : string -> result (list string);
  read_json : string -> result Json
}.

(** ** Deck prep *)

(** What [os.listdir] returns are names of entries: none starts with the
    path separator. *)
Definition entry_names (names : list string) : Prop :=
  Forall (fun f => startswith f "/" = false) names.

Definition is_json (f : string) : bool := endswith (lower f) ".json".

(** [e] is [".json"] in some mix of upper and lower case, and [f] a name
    that ends with such an extension. *)
Definition json_extension (e : string) : Prop :=
  exists c1 c2 c3 c4 : ascii,
    e = String "." (String c1 (String c2 (String c3 (String c4 "")))) /\
    (c1 = "j" \/ c1 = "J")%char /\ (c2 = "s" \/ c2 = "S")%char /\
    (c3 = "o" \/ c3 = "O")%char /\ (c4 = "n" \/ c4 = "N")%char.

Definition json_name (f : string) : Prop :=
  exists stem e, f = stem +:+ e /\ json_extension e.

(** The default of [directory] is ["decks"]. *)
Definition find_decks (fs : FileSystem) (directory : string)
  : result (list string) :=
  if negb (isdir fs directory) then Ok []
  else
    match listdir fs directory with
    | Raise e => Raise e
    | Ok names =>
        Ok (sorted (join directory <$> filter (fun f => is_json f) names))
    end.

Definition load_deck (fs : FileSystem) (path : string) (g : Rng)
  : result (string * list Card) * Rng :=
  match read_json fs path with
  | Raise e =>
      (Raise (Exn RuntimeError
                ("Failed to load deck '" +:+ path +:+ "': " +:+ exn_msg e)), g)
  | Ok (JOther t) =>
      (Raise (Exn AttributeError
                ("'" +:+ type_name t +:+ "' object has no attribute 'get'")), g)
  | Ok (JObject data) =>
      let title := default "Untitled Deck" (doc_title data) in
      let cards := default [] (doc_cards data) in
      if bool_decide (cards = []) then
        (Raise (Exn RuntimeError "Deck contains no cards."), g)
      else
        let (cards', g') := shuffle cards g in
        (Ok (title, cards'), g')
  end.

(** ** Runs of a session *)

(** The states a session object can be in: made by the constructor and
    changed by its methods only. *)
Inductive reachable : Flashcards -> Prop :=
| reach_init cs :
    reachable (Flashcards.init cs)
| reach_check selected self :
    reachable self -> reachable (Flashcards.check selected self).2
| reach_next self :
    reachable self -> reachable (Flashcards.next self).2
| reach_reset g self :
    reachable self -> reachable (Flashcards.reset_for_review g self).1.

(** [total] is the length of the working sequence. *)
Definition total_is_len (self : Flashcards) : Prop :=
  total self = length (cards self).

(** The missed list after a wrong answer to card [c]: [c] is appended unless
    an equal card is in the list already. *)
Definition mark_missed (c : Card) (self : Flashcards) : Flashcards :=
  if decide (c ∈ missed_cards self) then self
  else set_missed_cards (missed_cards self ++ [c]) self.

(** Several submissions for the card on display, one after the other. *)
Fixpoint check_each (selections : list string) : Method (list bool) :=
  match selections with
  | [] => ret []
  | selected :: rest =>
      b <- Flashcards.check selected ;;
      bs <- check_each rest ;;
      ret (b :: bs)
  end.

(** [n] calls of [next]. *)
Definition advance_n (n : nat) (self : Flashcards) : Flashcards :=
  Nat.iter n (fun s => (Flashcards.next s).2) self.

(** A call of [check] or of [next], and the state a sequence of such calls
    leaves (an [IndexError] of [check] is caught by the caller). *)
Inductive call := CallCheck (selected : string) | CallNext.

Definition step (self : Flashcards) (c : call) : Flashcards :=
  match c with
  | CallCheck selected => (Flashcards.check selected self).2
  | CallNext => (Flashcards.next self).2
  end.

Definition run (calls : list call) (self : Flashcards) : Flashcards :=
  foldl step self calls.

(** ** Sample data *)

Definition card_a : Card :=
  mkCard "2 + 2?" ["3"; "4"; "5"] "4" (Some "Addition.").
Definition card_b : Card :=
  mkCard "Capital of France?" ["Paris"; "Rome"] "Paris" None.
Definition card_c : Card :=
  mkCard "Largest planet?" ["Mars"; "Jupiter"] "Jupiter" None.

Definition sample_rng : Rng := mkRng (fun k => 3 * k + 1) 0.

Definition sample_fs : FileSystem :=
  {| isdir := fun d => bool_decide (d = "decks");
     listdir := fun d =>
       if bool_decide (d = "decks")
       then Ok ["zoo.JSON"; "notes.txt"; "math.json"; "json"; "Bio.Json"]
       else Raise (Exn OSError "No such file or directory");
     read_json := fun p =>
       if bool_decide (p = "decks/math.json")
       then Ok (JObject (mkDocument (Some "Math")
                                    (Some [card_a; card_b; card_c])))
       else if bool_decide (p = "decks/empty.json")
       then Ok (JObject (mkDocument None (Some [])))
       else if bool_decide (p = "decks/untitled.json")
       then Ok (JObject (mkDocument None None))
       else if bool_decide (p = "decks/list.json")
       then Ok (JOther py_list)
       else Raise (Exn OSError "No such file or directory") |}.

(** A [decks] directory that exists and may not be listed. *)
Definition locked_fs : FileSystem :=
  {| isdir := fun d => bool_decide (d = "decks");
     listdir := fun d =>
       if bool_decide (d = "decks")
       then Raise (Exn OSError "Permission denied")
       else Raise (Exn OSError "No such file or directory");
     read_json := fun p => Raise (Exn OSError "No such file or directory") |}.

(** ** A deck played through *)

(** One card the way the interface plays it: the selection is checked, then
    the session moves on ([submit_answer] followed by [advance]). *)
Definition answer_and_advance (selected : string) : Method bool :=
  b <- Flashcards.check selected ;;
  Flashcards.next ;;;
  ret b.

Fixpoint play (selections : list string) : Method (list bool) :=
  match selections with
  | [] => ret []
  | selected :: rest =>
      b <- answer_and_advance selected ;;
      bs <- play rest ;;
      ret (b :: bs)
  end.

(** The marks a list of selections earns on a list of cards. *)
Definition graded (deck : list Card) (selections : list string) : list bool :=
  zip_with (fun c selected => bool_decide (selected = answer c)) deck selections.

(** The number of right answers among the marks. *)
Definition marks_true (bs : list bool) : nat :=
  length (filter (fun b => b = true) bs).

(** The state [play] leaves when every selection finds a card. *)
Record played (selections : list string) (self final : Flashcards) : Prop := {
  played_cards : cards final = cards self;
  played_total : total final = total self;
  played_index : index final = index self + length selections;
  played_score :
    score final =
    score self +
    marks_true (graded (drop (index self) (cards self)) selections);
  played_missed : forall c,
    c ∈ missed_cards final <->
    c ∈ missed_cards self \/
    exists i selected,
      cards self !! (index self + i) = Some c /\
      selections !! i = Some selected /\ selected ≠ answer c;
  played_NoDup : NoDup (missed_cards self) -> NoDup (missed_cards final);
  played_count :
    length (missed_cards final) +
    marks_true (graded (drop (index self) (cards self)) selections)
    <= length (missed_cards self) + length selections
}.

(** ** The interface: [FlashcardApp] *)

(** The widgets are kept as what the code puts into them: the text of each
    label, the buttons of the button frame with the command each one is
    bound to, the items and the selection of the deck list, the message
    boxes shown.  Sizes, fonts and the layout are left out. *)

(** What a button does when it is pressed. *)
Inductive command :=
| cmd_start_game
| cmd_submit_answer (choice : string)
| cmd_advance
| cmd_redo_wrong
| cmd_show_deck_selector
| cmd_quit.

Record Button := mkButton { btn_text : string; btn_command : command }.

(** The attribute [deck_listbox]: not assigned yet, a list box on the
    screen with its items and the selected item (the selection mode is the
    default one, at most one item), or a list box that was destroyed with
    the other children of the button frame. *)
Inductive ListboxRef :=
| lb_unset
| lb_live (items : list string) (selection : option nat)
| lb_destroyed.

(** A call of [messagebox]. *)
Inductive dialog :=
| showerror (title message : string)
| showwarning (title message : string).

(** [explanation_area] is true while the feedback, answer and explanation
    labels are on the grid; [feedback_fg] is the colour of the feedback;
    [dialogs] are the message boxes shown so far, [quit_called] whether
    [root.quit] was called. *)
Record FlashcardApp := mkApp {
  game : option Flashcards;
  decks : list string;
  last_correct : bool;
  selected_answer : string;
  title_label : string;
  question_label : string;
  feedback_label : string;
  feedback_fg : string;
  answer_info_label : string;
  explanation_label : string;
  explanation_area : bool;
  buttons : list Button;
  deck_listbox : ListboxRef;
  score_label : string;
  dialogs : list dialog;
  quit_called : bool
}.

Definition set_game (v : option Flashcards) (a : FlashcardApp) : FlashcardApp :=
  mkApp v (decks a) (last_correct a) (selected_answer a) (title_label a)
    (question_label a) (feedback_label a) (feedback_fg a)
    (answer_info_label a) (explanation_label a) (explanation_area a)
    (buttons a) (deck_listbox a) (score_label a) (dialogs a) (quit_called a).
Definition set_decks (v : list string) (a : FlashcardApp) : FlashcardApp :=
  mkApp (game a) v (last_correct a) (selected_answer a) (title_label a)
    (question_label a) (feedback_label a) (feedback_fg a)
    (answer_info_label a) (explanation_label a) (explanation_area a)
    (buttons a) (deck_listbox a) (score_label a) (dialogs a) (quit_called a).
Definition set_last_correct (v : bool) (a : FlashcardApp) : FlashcardApp :=
  mkApp (game a) (decks a) v (selected_answer a) (title_label a)
    (question_label a) (feedback_label a) (feedback_fg a)
    (answer_info_label a) (explanation_label a) (explanation_area a)
    (buttons a) (deck_listbox a) (score_label a) (dialogs a) (quit_called a).
Definition set_selected_answer (v : string) (a : FlashcardApp) : FlashcardApp :=
  mkApp (game a) (decks a) (last_correct a) v (title_label a)
    (question_label a) (feedback_label a) (feedback_fg a)
    (answer_info_label a) (explanation_label a) (explanation_area a)
    (buttons a) (deck_listbox a) (score_label a) (dialogs a) (quit_called a).
Definition set_title_label (v : string) (a : FlashcardApp) : FlashcardApp :=
  mkApp (game a) (decks a) (last_correct a) (selected_answer a) v
    (question_label a) (feedback_label a) (feedback_fg a)
    (answer_info_label a) (explanation_label a) (explanation_area a)
    (buttons a) (deck_listbox a) (score_label a) (dialogs a) (quit_called a).
Definition set_question_label (v : string) (a : FlashcardApp) : FlashcardApp :=
  mkApp (game a) (decks a) (last_correct a) (selected_answer a)
    (title_label a) v (feedback_label a) (feedback_fg a)
    (answer_info_label a) (explanation_label a) (explanation_area a)
    (buttons a) (deck_listbox a) (score_label a) (dialogs a) (quit_called a).
Definition set_feedback_label (v : string) (a : FlashcardApp) : FlashcardApp :=
  mkApp (game a) (decks a) (last_correct a) (selected_answer a)
    (title_label a) (question_label a) v (feedback_fg a)
    (answer_info_label a) (explanation_label a) (explanation_area a)
    (buttons a) (deck_listbox a) (score_label a) (dialogs a) (quit_called a).
Definition set_feedback_fg (v : string) (a : FlashcardApp) : FlashcardApp :=
  mkApp (game a) (decks a) (last_correct a) (selected_answer a)
    (title_label a) (question_label a) (feedback_label a) v
    (answer_info_label a) (explanation_label a) (explanation_area a)
    (buttons a) (deck_listbox a) (score_label a) (dialogs a) (quit_called a).
Definition set_answer_info_label (v : string) (a : FlashcardApp) : FlashcardApp :=
  mkApp (game a) (decks a) (last_correct a) (selected_answer a)
    (title_label a) (question_label a) (feedback_label a) (feedback_fg a) v
    (explanation_label a) (explanation_area a) (buttons a) (deck_listbox a)
    (score_label a) (dialogs a) (quit_called a).
Definition set_explanation_label (v : string) (a : FlashcardApp) : FlashcardApp :=
  mkApp (game a) (decks a) (last_correct a) (selected_answer a)
    (title_label a) (question_label a) (feedback_label a) (feedback_fg a)
    (answer_info_label a) v (explanation_area a) (buttons a) (deck_listbox a)
    (score_label a) (dialogs a) (quit_called a).
Definition set_explanation_area (v : bool) (a : FlashcardApp) : FlashcardApp :=
  mkApp (game a) (decks a) (last_correct a) (selected_answer a)
    (title_label a) (question_label a) (feedback_label a) (feedback_fg a)
    (answer_info_label a) (explanation_label a) v (buttons a)
    (deck_listbox a) (score_label a) (dialogs a) (quit_called a).
Definition set_buttons (v : list Button) (a : FlashcardApp) : FlashcardApp :=
  mkApp (game a) (decks a) (last_correct a) (selected_answer a)
    (title_label a) (question_label a) (feedback_label a) (feedback_fg a)
    (answer_info_label a) (explanation_label a) (explanation_area a) v
    (deck_listbox a) (score_label a) (dialogs a) (quit_called a).
Definition set_deck_listbox (v : ListboxRef) (a : FlashcardApp) : FlashcardApp :=
  mkApp (game a) (decks a) (last_correct a) (selected_answer a)
    (title_label a) (question_label a) (feedback_label a) (feedback_fg a)
    (answer_info_label a) (explanation_label a) (explanation_area a)
    (buttons a) v (score_label a) (dialogs a) (quit_called a).
Definition set_score_label (v : string) (a : FlashcardApp) : FlashcardApp :=
  mkApp (game a) (decks a) (last_correct a) (selected_answer a)
    (title_label a) (question_label a) (feedback_label a) (feedback_fg a)
    (answer_info_label a) (explanation_label a) (explanation_area a)
    (buttons a) (deck_listbox a) v (dialogs a) (quit_called a).
Definition set_dialogs (v : list dialog) (a : FlashcardApp) : FlashcardApp :=
  mkApp (game a) (decks a) (last_correct a) (selected_answer a)
    (title_label a) (question_label a) (feedback_label a) (feedback_fg a)
    (answer_info_label a) (explanation_label a) (explanation_area a)
    (buttons a) (deck_listbox a) (score_label a) v (quit_called a).
Definition set_quit_called (v : bool) (a : FlashcardApp) : FlashcardApp :=
  mkApp (game a) (decks a) (last_correct a) (selected_answer a)
    (title_label a) (question_label a) (feedback_label a) (feedback_fg a)
    (answer_info_label a) (explanation_label a) (explanation_area a)
    (buttons a) (deck_listbox a) (score_label a) (dialogs a) v.

(** The program as a whole: the application object, the generator of
    [random] and the files on disk. *)
Record World := mkWorld { app : FlashcardApp; rng : Rng; files : FileSystem }.

(** What can come out of a callback: a Python exception ([Exc]), that of
    the deck and session code or the [AttributeError] of an attribute looked
    up on [None] or not assigned yet; and the error of a call on a destroyed
    widget. *)
Inductive ui_exn :=
| Exc (e : exn)
| TclError (msg : string).

Inductive outcome (A : Type) :=
| Done (a : A)
| Failed (e : ui_exn).

Arguments Done {A} a.
Arguments Failed {A} e.

(** A method of the application: its outcome and the world after it. *)
Definition UI (A : Type) : Type := World -> outcome A * World.

Definition ui_ret {A} (a : A) : UI A := fun w => (Done a, w).

Definition ui_bind {A B} (m : UI A) (k : A -> UI B) : UI B :=
  fun w =>
    match m w with
    | (Done a, w') => k a w'
    | (Failed e, w') => (Failed e, w')
    end.

Definition ui_raise {A} (e : ui_exn) : UI A := fun w => (Failed e, w).

Notation "'let*' x := m 'in' k" := (ui_bind m (fun x => k))
  (at level 10, x name, m at level 100, k at level 200).
Notation "m >> k" := (ui_bind m (fun _ => k))
  (at level 100, k at level 200, right associativity).

(** Reading and writing attributes and widgets of [self]. *)
Definition read {A} (f : FlashcardApp -> A) : UI A :=
  fun w => (Done (f (app w)), w).

Definition update (f : FlashcardApp -> FlashcardApp) : UI unit :=
  fun w => (Done tt, mkWorld (f (app w)) (rng w) (files w)).

(** A method call on [self.game]. *)
Definition call_game {A} (m : Method A) : UI A :=
  fun w =>
    match game (app w) with
    | None => (Failed (Exc (Exn AttributeError
                               "'NoneType' object has no attribute")), w)
    | Some g =>
        let (r, g') := m g in
        (match r with Ok a => Done a | Raise e => Failed (Exc e) end,
         mkWorld (set_game (Some g') (app w)) (rng w) (files w))
    end.

(** [self.game.reset_for_review()] *)
Definition call_reset_for_review : UI unit :=
  fun w =>
    match game (app w) with
    | None => (Failed (Exc (Exn AttributeError
                               "'NoneType' object has no attribute")), w)
    | Some g =>
        let (g', r') := Flashcards.reset_for_review (rng w) g in
        (Done tt, mkWorld (set_game (Some g') (app w)) r' (files w))
    end.

(** [random.shuffle] on a fresh copy of a list. *)
Definition ui_shuffle {A} (x : list A) : UI (list A) :=
  fun w =>
    let (x', r') := shuffle x (rng w) in
    (Done x', mkWorld (app w) r' (files w)).

Definition ui_find_decks (directory : string) : UI (list string) :=
  fun w =>
    match find_decks (files w) directory with
    | Ok found => (Done found, w)
    | Raise e => (Failed (Exc e), w)
    end.

Definition ui_load_deck (path : string) : UI (string * list Card) :=
  fun w =>
    let (r, r') := load_deck (files w) path (rng w) in
    (match r with Ok deck => Done deck | Raise e => Failed (Exc e) end,
     mkWorld (app w) r' (files w)).

(** [for x in l: body] *)
Fixpoint ui_for {A} (l : list A) (body : A -> UI unit) : UI unit :=
  match l with
  | [] => ui_ret tt
  | x :: l' => body x >> ui_for l' body
  end.

(** *** Paths, as [os.path] takes them apart *)

(** [s.rfind(ch)]: the highest index of [ch], if there is one. *)
Fixpoint rfind (ch : ascii) (s : string) : option nat :=
  match s with
  | EmptyString => None
  | String c s' =>
      match rfind ch s' with
      | Some i => Some (S i)
      | None => if decide (c = ch) then Some 0 else None
      end
  end.

(** [s[:n]] *)
Fixpoint str_take (n : nat) (s : string) : string :=
  match n, s with
  | S n', String c s' => String c (str_take n' s')
  | _, _ => EmptyString
  end.

(** [os.path.basename(p)]: [i = p.rfind("/") + 1; return p[i:]]. *)
Definition basename (p : string) : string :=
  let i := match rfind "/" p with Some k => k + 1 | None => 0 end in
  str_drop i p.

(** The loop of [splitext] that skips the leading dots of the file name:
    true when a character other than a dot is found in
    [p[filenameIndex : filenameIndex + count]]. *)
Fixpoint found_non_dot (p : string) (filenameIndex count : nat) : bool :=
  match count with
  | 0 => false
  | S count' =>
      if bool_decide (String.get filenameIndex p ≠ Some "."%char) then true
      else found_non_dot p (S filenameIndex) count'
  end.

(** [os.path.splitext(p)]: the extension starts at the last dot, unless
    that dot is before the last separator or only dots come before it in
    the file name. *)
Definition splitext (p : string) : string * string :=
  let filenameIndex :=
    match rfind "/" p with Some k => k + 1 | None => 0 end in
  match rfind "." p with
  | Some dotIndex =>
      if (filenameIndex <=? dotIndex) &&
         found_non_dot p filenameIndex (dotIndex - filenameIndex)
      then (str_take dotIndex p, str_drop dotIndex p)
      else (p, EmptyString)
  | None => (p, EmptyString)
  end.

(** The line break of the labels with two lines. *)
Definition newline : string := String "010"%char EmptyString.

Module FlashcardApp.

(** The attributes and labels as [__init__] leaves them before it shows
    the deck selector. *)
Definition created : FlashcardApp :=
  {| game := None; decks := []; last_correct := false; selected_answer := "";
     title_label := ""; question_label := ""; feedback_label := "";
     feedback_fg := ""; answer_info_label := ""; explanation_label := "";
     explanation_area := true; buttons := []; deck_listbox := lb_unset;
     score_label := ""; dialogs := []; quit_called := false |}.

Definition hide_explanation_area : UI unit :=
  update (set_explanation_area false).

Definition show_explanation_area : UI unit :=
  update (set_explanation_area true).

(** Every child of the button frame is destroyed: the buttons, and the
    frame that holds the deck list when it is there. *)
Definition clear_buttons : UI unit :=
  update (fun a =>
    set_buttons []
      (set_deck_listbox
         (match deck_listbox a with
          | lb_live _ _ => lb_destroyed
          | r => r
          end) a)).

(** [tk.Button(self.buttons_frame, text=..., command=...).pack()] *)
Definition add_button (text : string) (c : command) : UI unit :=
  update (fun a => set_buttons (buttons a ++ [mkButton text c]) a).

Definition add_dialog (d : dialog) : UI unit :=
  update (fun a => set_dialogs (dialogs a ++ [d]) a).

Definition root_quit : UI unit := update (set_quit_called true).

(** [self.deck_listbox.insert(tk.END, name)] *)
Definition listbox_insert (name : string) : UI unit :=
  let* lb := read deck_listbox in
  match lb with
  | lb_live items selection =>
      update (set_deck_listbox (lb_live (items ++ [name]) selection))
  | lb_unset => ui_raise (Exc (Exn AttributeError "deck_listbox"))
  | lb_destroyed => ui_raise (TclError "invalid command name")
  end.

(** [self.deck_listbox.selection_set(i)] *)
Definition listbox_selection_set (i : nat) : UI unit :=
  let* lb := read deck_listbox in
  match lb with
  | lb_live items selection =>
      update (set_deck_listbox
                (lb_live items (if i <? length items then Some i else selection)))
  | lb_unset => ui_raise (Exc (Exn AttributeError "deck_listbox"))
  | lb_destroyed => ui_raise (TclError "invalid command name")
  end.

(** [self.deck_listbox.curselection()] *)
Definition listbox_curselection : UI (option nat) :=
  let* lb := read deck_listbox in
  match lb with
  | lb_live items selection => ui_ret selection
  | lb_unset => ui_raise (Exc (Exn AttributeError "deck_listbox"))
  | lb_destroyed => ui_raise (TclError "invalid command name")
  end.

(** The name a deck is listed under. *)
Definition deck_name (deck_path : string) : string :=
  (splitext (basename deck_path)).1.

Definition show_deck_selector : UI unit :=
  clear_buttons >>
  hide_explanation_area >>
  update (set_question_label "") >>
  update (set_score_label "") >>
  let* found := ui_find_decks "decks" in
  update (set_decks found) >>
  let* ds := read decks in
  if bool_decide (ds = []) then
    add_dialog (showerror "Error" "No JSON decks found in the 'decks' folder.") >>
    root_quit
  else
    update (set_title_label "Select a Deck") >>
    update (set_deck_listbox (lb_live [] None)) >>
    ui_for ds (fun deck_path => listbox_insert (deck_name deck_path)) >>
    listbox_selection_set 0 >>
    add_button "Start" cmd_start_game.

Definition score_text (g : Flashcards) : string :=
  "Score: " +:+ pretty (score g) +:+ "/" +:+ pretty (total g).

Definition show_results : UI unit :=
  clear_buttons >>
  hide_explanation_area >>
  let* text := call_game (gets (fun g =>
    "Quiz Complete!" +:+ newline +:+ newline +:+ score_text g)) in
  update (set_question_label text) >>
  let* missed := call_game (gets missed_cards) in
  (if bool_decide (missed = []) then ui_ret tt
   else
     add_button ("Redo Wrong Answers (" +:+ pretty (length missed) +:+ ")")
                cmd_redo_wrong) >>
  add_button "Restart Deck" cmd_show_deck_selector >>
  add_button "Quit" cmd_quit.

Definition next_question : UI unit :=
  clear_buttons >>
  hide_explanation_area >>
  let* more := call_game (gets Flashcards.has_next) in
  if negb more then show_results
  else
    let* card := call_game (lift Flashcards.current) in
    update (set_question_label (question card)) >>
    let* text := call_game (gets score_text) in
    update (set_score_label text) >>
    let* shuffled := ui_shuffle (choices card) in
    ui_for shuffled (fun choice => add_button choice (cmd_submit_answer choice)).

Definition start_game : UI unit :=
  let* selection := listbox_curselection in
  match selection with
  | None => add_dialog (showwarning "Select Deck" "Please select a deck.")
  | Some i =>
      let* ds := read decks in
      match ds !! i with
      | None => ui_raise (Exc (Exn IndexError "list index out of range"))
      | Some deck_path =>
          let* loaded := ui_load_deck deck_path in
          update (set_game (Some (Flashcards.init loaded.2))) >>
          update (set_title_label loaded.1) >>
          next_question
      end
  end.

Definition show_explanation : UI unit :=
  clear_buttons >>
  show_explanation_area >>
  let* card := call_game (lift Flashcards.current) in
  let* correct := read last_correct in
  let* selected := read selected_answer in
  (if correct then
     update (set_feedback_label "Correct!") >>
     update (set_feedback_fg "green") >>
     update (set_answer_info_label ("Your answer: " +:+ selected))
   else
     update (set_feedback_label "Incorrect") >>
     update (set_feedback_fg "red") >>
     update (set_answer_info_label
               ("Your answer: " +:+ selected +:+ newline +:+
                "Correct answer: " +:+ answer card))) >>
  update (set_explanation_label
            (default "No explanation provided." (explanation card))) >>
  add_button "Next" cmd_advance.

Definition submit_answer (selected : string) : UI unit :=
  update (set_selected_answer selected) >>
  let* correct := call_game (Flashcards.check selected) in
  update (set_last_correct correct) >>
  show_explanation.

Definition advance : UI unit :=
  call_game Flashcards.next >>
  next_question.

Definition redo_wrong : UI unit :=
  call_reset_for_review >>
  next_question.

(** [__init__]: the attributes and widgets are created, then the deck
    selector is shown. *)
Definition init (fs : FileSystem) (g : Rng) : outcome unit * World :=
  show_deck_selector (mkWorld created g fs).

End FlashcardApp.

(** *** The event loop *)

Definition run_command (c : command) : UI unit :=
  match c with
  | cmd_start_game => FlashcardApp.start_game
  | cmd_submit_answer choice => FlashcardApp.submit_answer choice
  | cmd_advance => FlashcardApp.advance
  | cmd_redo_wrong => FlashcardApp.redo_wrong
  | cmd_show_deck_selector => FlashcardApp.show_deck_selector
  | cmd_quit => FlashcardApp.root_quit
  end.

(** What the user and the surroundings can do between two callbacks: press
    a button that is on the screen, select an item of the deck list or
    lose the selection, double-click the deck list (bound to
    [start_game]); and the files on disk may change. *)
Inductive event :=
| Press (i : nat)
| SelectItem (i : nat)
| LoseSelection
| DoubleClick
| FilesChange (fs : FileSystem).

(** An exception raised in a callback is reported by Tk and the loop goes
    on, with the world as the callback left it. *)
Definition handle (ev : event) : UI unit :=
  match ev with
  | Press i =>
      let* bs := read buttons in
      match bs !! i with
      | Some b => run_command (btn_command b)
      | None => ui_ret tt
      end
  | SelectItem i =>
      update (fun a =>
        match deck_listbox a with
        | lb_live items selection =>
            set_deck_listbox
              (lb_live items (if i <? length items then Some i else selection)) a
        | _ => a
        end)
  | LoseSelection =>
      update (fun a =>
        match deck_listbox a with
        | lb_live items _ => set_deck_listbox (lb_live items None) a
        | _ => a
        end)
  | DoubleClick =>
      let* lb := read deck_listbox in
      match lb with
      | lb_live _ _ => FlashcardApp.start_game
      | _ => ui_ret tt
      end
  | FilesChange fs =>
      fun w => (Done tt, mkWorld (app w) (rng w) fs)
  end.

(** The worlds the running program can be in. *)
Inductive ui_reachable : World -> Prop :=
| ui_started fs g :
    (FlashcardApp.init fs g).1 = Done tt ->
    ui_reachable (FlashcardApp.init fs g).2
| ui_handled ev w :
    ui_reachable w -> ui_reachable (handle ev w).2.

(** *** What is on the screen *)

(** No deck list is on the screen. *)
Definition listbox_gone (a : FlashcardApp) : Prop :=
  forall items selection, deck_listbox a ≠ lb_live items selection.

Definition answer_button (choice : string) : Button :=
  mkButton choice (cmd_submit_answer choice).

Definition result_buttons (g : Flashcards) : list Button :=
  (if bool_decide (missed_cards g = []) then []
   else [mkButton ("Redo Wrong Answers (" +:+
                   pretty (length (missed_cards g)) +:+ ")")
                  cmd_redo_wrong]) ++
  [mkButton "Restart Deck" cmd_show_deck_selector; mkButton "Quit" cmd_quit].

(** The command is bound to one of the buttons on the screen. *)
Definition offered (c : command) (a : FlashcardApp) : Prop :=
  c ∈ btn_command <$> buttons a.

(** The five screens of the application: nothing to press; the deck
    selector; a question with its choices; the explanation of an answer;
    the results. *)
Inductive screen (a : FlashcardApp) : Prop :=
| screen_blank :
    buttons a = [] -> listbox_gone a -> screen a
| screen_selector selection :
    decks a ≠ [] ->
    deck_listbox a = lb_live (FlashcardApp.deck_name <$> decks a) selection ->
    (forall i, selection = Some i -> i < length (decks a)) ->
    buttons a = [mkButton "Start" cmd_start_game] ->
    title_label a = "Select a Deck" ->
    explanation_area a = false ->
    screen a
| screen_question g c shuffled :
    game a = Some g ->
    Flashcards.current g = Ok c ->
    shuffled ≡ₚ choices c ->
    buttons a = answer_button <$> shuffled ->
    listbox_gone a ->
    question_label a = question c ->
    score_label a = FlashcardApp.score_text g ->
    explanation_area a = false ->
    score g + length (missed_cards g) <= index g ->
    screen a
| screen_explanation g c :
    game a = Some g ->
    Flashcards.current g = Ok c ->
    buttons a = [mkButton "Next" cmd_advance] ->
    listbox_gone a ->
    explanation_area a = true ->
    last_correct a = bool_decide (selected_answer a = answer c) ->
    feedback_label a = (if last_correct a then "Correct!" else "Incorrect") ->
    feedback_fg a = (if last_correct a then "green" else "red") ->
    answer_info_label a =
      (if last_correct a then "Your answer: " +:+ selected_answer a
       else "Your answer: " +:+ selected_answer a +:+ newline +:+
            "Correct answer: " +:+ answer c) ->
    explanation_label a =
      default "No explanation provided." (explanation c) ->
    (last_correct a = false -> c ∈ missed_cards g) ->
    score g + length (missed_cards g) <= index g + 1 ->
    screen a
| screen_results g :
    game a = Some g ->
    Flashcards.has_next g = false ->
    buttons a = result_buttons g ->
    listbox_gone a ->
    question_label a =
      "Quiz Complete!" +:+ newline +:+ newline +:+ FlashcardApp.score_text g ->
    explanation_area a = false ->
    score g + length (missed_cards g) <= index g ->
    screen a.

(** What holds of the application between two callbacks. *)
Definition ui_inv (w : World) : Prop :=
  screen (app w) /\
  forall g, game (app w) = Some g ->
    reachable g /\ index g <= total g /\
    score g + length (missed_cards g) <= total g.

(** The outcomes a callback can have while the application runs: it
    returns; or [load_deck] raised on one of the listed decks (its
    [RuntimeError], or the [AttributeError] of a file that holds no
    object), and nothing has changed; or [find_decks] passed on what
    [os.listdir] raised. *)
Definition expected_outcome (w : World) (r : outcome unit * World) : Prop :=
  r.1 = Done tt \/
  exists e,
    r.1 = Failed (Exc e) /\
    ((exists path,
        path ∈ decks (app w) /\
        (load_deck (files w) path (rng w)).1 = Raise e /\
        (exn_cls e = RuntimeError \/
         exn_cls e = AttributeError /\
         exists t, read_json (files w) path = Ok (JOther t)) /\
        r.2 = w) \/
     (isdir (files w) "decks" = true /\ listdir (files w) "decks" = Raise e)).

(** *** Sample runs of the application *)

Definition run_events (events : list event) (w : World) : World :=
  foldl (fun w ev => (handle ev w).2) w events.

(** The application started on the sample files; the deck ["math"]
    selected and started; a first, wrong, answer; and the results after
    three wrong answers. *)
Definition sample_selector : World :=
  (FlashcardApp.init sample_fs sample_rng).2.

Definition sample_question : World :=
  run_events [SelectItem 1; Press 0] sample_selector.

Definition sample_explanation : World :=
  run_events [Press 0] sample_question.

Definition sample_results : World :=
  run_events [Press 0; Press 1; Press 0; Press 0; Press 0] sample_explanation.

(** * Properties *)

(** ** [random.shuffle] rearranges and never loses an element *)

Section ShuffleFacts.
Context {A : Type}.
Implicit Types (x : list A) (g : Rng).

(** Overwriting position [i], which held [b], by [a] trades [b] for [a]. *)
Lemma insert_trades x i a b :
  x !! i = Some b -> b :: <[i := a]> x ≡ₚ a :: x.
Proof.
  revert i; induction x as [|h x IH]; intros [|i] Hi; simplify_eq/=.
  - apply perm_swap.
  - rewrite perm_swap, (IH _ Hi). apply perm_swap.
Qed.

Lemma swap_Permutation i j x : swap i j x ≡ₚ x.
Proof.
  unfold swap.
  destruct (x !! j) as [xj|] eqn:Hj; [|done].
  destruct (x !! i) as [xi|] eqn:Hi; [|done].
  destruct (decide (i = j)) as [->|Hne].
  - simplify_eq. rewrite list_insert_insert_eq. by rewrite list_insert_id.
  - apply (Permutation_cons_inv (a := xj)).
    rewrite (insert_trades (<[i := xj]> x) j xi xj)
      by (rewrite list_lookup_insert_ne; done).
    by apply insert_trades.
Qed.

Lemma swap_length i j x : length (swap i j x) = length x.
Proof. by rewrite (swap_Permutation i j x). Qed.

Lemma shuffle_loop_Permutation i x g : (shuffle_loop i x g).1 ≡ₚ x.
Proof.
  revert x g; induction i as [|i IH]; intros x g; simpl; [done|].
  rewrite IH. apply swap_Permutation.
Qed.

Lemma shuffle_Permutation x g : (shuffle x g).1 ≡ₚ x.
Proof. apply shuffle_loop_Permutation. Qed.

Lemma shuffle_length x g : length (shuffle x g).1 = length x.
Proof. by rewrite shuffle_Permutation. Qed.

Lemma shuffle_nil_inv x g : (shuffle x g).1 = [] -> x = [].
Proof.
  intros H. apply Permutation_nil_r. rewrite <- H.
  symmetry. apply shuffle_Permutation.
Qed.

End ShuffleFacts.

(** ** The methods of [Flashcards], one equation each *)

Section MethodFacts.
Implicit Types (self : Flashcards) (c : Card) (selected : string).

Lemma current_Ok self c :
  Flashcards.current self = Ok c <-> cards self !! index self = Some c.
Proof.
  unfold Flashcards.current.
  destruct (cards self !! index self); split; intros; simplify_eq; done.
Qed.

Lemma has_next_lookup self :
  Flashcards.has_next self = true <-> is_Some (cards self !! index self).
Proof.
  unfold Flashcards.has_next.
  rewrite Nat.ltb_lt. symmetry. apply lookup_lt_is_Some.
Qed.

Lemma has_next_current self :
  Flashcards.has_next self = true ->
  exists c, Flashcards.current self = Ok c.
Proof.
  intros [c Hc]%has_next_lookup. exists c. by apply current_Ok.
Qed.

Lemma no_next_current self :
  Flashcards.has_next self = false ->
  Flashcards.current self = Raise (Exn IndexError "list index out of range").
Proof.
  unfold Flashcards.has_next, Flashcards.current.
  intros H%Nat.ltb_ge. by rewrite lookup_ge_None_2.
Qed.

(** What [check] does, by the three ways through its body. *)
Lemma check_eq selected self :
  Flashcards.check selected self =
  match Flashcards.current self with
  | Raise e => (Raise e, self)
  | Ok c =>
      if decide (selected = answer c)
      then (Ok true, set_score (score self + 1) self)
      else (Ok false,
            if decide (c ∈ missed_cards self) then self
            else set_missed_cards (missed_cards self ++ [c]) self)
  end.
Proof.
  unfold Flashcards.check, bind, lift, gets, modify, ret.
  destruct (Flashcards.current self) as [c|e] eqn:Hcur; [|done].
  destruct (decide (selected = answer c)); [done|].
  rewrite Hcur.
  destruct (decide (c ∈ missed_cards self)); [done|].
  by rewrite Hcur.
Qed.

Lemma check_cards selected self :
  cards (Flashcards.check selected self).2 = cards self.
Proof.
  rewrite check_eq. repeat case_match; done.
Qed.

Lemma check_index selected self :
  index (Flashcards.check selected self).2 = index self.
Proof.
  rewrite check_eq. repeat case_match; done.
Qed.

Lemma check_total selected self :
  total (Flashcards.check selected self).2 = total self.
Proof.
  rewrite check_eq. repeat case_match; done.
Qed.

Lemma check_has_next selected self :
  Flashcards.has_next (Flashcards.check selected self).2 =
  Flashcards.has_next self.
Proof.
  unfold Flashcards.has_next. by rewrite check_cards, check_index.
Qed.

Lemma check_current selected self :
  Flashcards.current (Flashcards.check selected self).2 =
  Flashcards.current self.
Proof.
  unfold Flashcards.current. by rewrite check_cards, check_index.
Qed.

Lemma reset_for_review_eq g self :
  (Flashcards.reset_for_review g self).1 =
  {| cards := (shuffle (missed_cards self) g).1;
     index := 0; score := 0;
     total := length (shuffle (missed_cards self) g).1;
     missed_cards := [] |}.
Proof.
  unfold Flashcards.reset_for_review. simpl.
  by destruct (shuffle (missed_cards self) g).
Qed.

End MethodFacts.

(** ** Invariants of a session: established by [__init__], preserved by
    every method *)

Section Invariants.
Implicit Types (self : Flashcards).

Lemma init_total_is_len cs : total_is_len (Flashcards.init cs).
Proof. done. Qed.

Lemma check_total_is_len selected self :
  total_is_len self -> total_is_len (Flashcards.check selected self).2.
Proof. unfold total_is_len. by rewrite check_total, check_cards. Qed.

Lemma next_total_is_len self :
  total_is_len self -> total_is_len (Flashcards.next self).2.
Proof. done. Qed.

Lemma reset_total_is_len g self :
  total_is_len (Flashcards.reset_for_review g self).1.
Proof. unfold total_is_len. by rewrite reset_for_review_eq. Qed.

Lemma reachable_total_is_len self : reachable self -> total_is_len self.
Proof.
  induction 1;
    auto using init_total_is_len, check_total_is_len, next_total_is_len,
               reset_total_is_len.
Qed.

Lemma check_NoDup_missed selected self :
  NoDup (missed_cards self) ->
  NoDup (missed_cards (Flashcards.check selected self).2).
Proof.
  intros Hnd. rewrite check_eq. repeat case_match; simpl; try done.
  apply NoDup_app. split_and!; [done| |apply NoDup_singleton].
  intros x Hx ->%list_elem_of_singleton. done.
Qed.

Lemma reachable_NoDup_missed self :
  reachable self -> NoDup (missed_cards self).
Proof.
  induction 1 as [cs|selected self _ IH|self _ IH|g self _ _].
  - apply NoDup_nil_2.
  - by apply check_NoDup_missed.
  - done.
  - rewrite reset_for_review_eq. apply NoDup_nil_2.
Qed.

End Invariants.

(** ** Answering *)

Section Answering.
Implicit Types (self : Flashcards) (c : Card) (selected : string).

Lemma check_wrong self c selected :
  Flashcards.current self = Ok c ->
  selected ≠ answer c ->
  Flashcards.check selected self = (Ok false, mark_missed c self).
Proof.
  intros Hc Hne. rewrite check_eq, Hc. by rewrite decide_False.
Qed.

Lemma mark_missed_current c self :
  Flashcards.current (mark_missed c self) = Flashcards.current self.
Proof. unfold mark_missed. by case_decide. Qed.

Lemma mark_missed_elem c self : c ∈ missed_cards (mark_missed c self).
Proof.
  unfold mark_missed. case_decide; [done|].
  simpl. apply elem_of_app. right. by apply list_elem_of_singleton.
Qed.

Lemma mark_missed_idemp c self :
  mark_missed c (mark_missed c self) = mark_missed c self.
Proof.
  unfold mark_missed at 1. rewrite decide_True; [done|apply mark_missed_elem].
Qed.

Lemma mark_missed_count c self :
  NoDup (missed_cards self) ->
  count_occ Card_eq_dec (missed_cards (mark_missed c self)) c = 1.
Proof.
  intros Hnd. unfold mark_missed. case_decide as Hin.
  - apply NoDup_ListNoDup in Hnd.
    apply (proj1 (NoDup_count_occ' Card_eq_dec _) Hnd).
    by apply list_elem_of_In.
  - simpl. rewrite count_occ_app, (count_occ_cons_eq _ _ eq_refl).
    rewrite (proj1 (count_occ_not_In _ _ _)); [done|].
    by rewrite <- list_elem_of_In.
Qed.

(** Any number of wrong answers to the same card: each returns [False], and
    the state is the one the first of them left. *)
Lemma check_each_wrong selections self c :
  Flashcards.current self = Ok c ->
  Forall (fun selected => selected ≠ answer c) selections ->
  check_each selections self =
  (Ok (replicate (length selections) false),
   match selections with [] => self | _ :: _ => mark_missed c self end).
Proof.
  intros Hc Hall. revert self Hc.
  induction Hall as [|selected rest Hne _ IH]; intros self Hc; [done|].
  simpl. unfold bind at 1. rewrite (check_wrong _ c) by done.
  unfold bind at 1. rewrite IH by (by rewrite mark_missed_current).
  unfold ret. f_equal. destruct rest; [done|apply mark_missed_idemp].
Qed.

End Answering.

(** ** The session state machine *)

(** C1.  In every state with [has_next], [check] with the stored answer of
    the card on display returns [True], adds exactly one to [score], and
    leaves [missed_cards], [index], [cards] and [total] as they were. *)
Theorem check_right_answer (self : Flashcards) :
  Flashcards.has_next self = true ->
  exists c,
    Flashcards.current self = Ok c /\
    forall selected, selected = answer c ->
      let after := Flashcards.check selected self in
      after.1 = Ok true /\
      score after.2 = score self + 1 /\
      missed_cards after.2 = missed_cards self /\
      index after.2 = index self /\
      cards after.2 = cards self /\
      total after.2 = total self.
Proof.
  intros [c Hc]%has_next_current. exists c. split; [done|].
  intros selected ->. simpl. rewrite check_eq, Hc.
  by rewrite decide_True.
Qed.

Lemma check_right_answer_witness :
  Flashcards.has_next (Flashcards.init [card_a; card_b]) = true /\
  exists c,
    Flashcards.current (Flashcards.init [card_a; card_b]) = Ok c /\
    forall selected, selected = answer c ->
      let after := Flashcards.check selected (Flashcards.init [card_a; card_b]) in
      after.1 = Ok true /\
      score after.2 = 0 + 1 /\
      missed_cards after.2 = [] /\
      index after.2 = 0 /\
      cards after.2 = [card_a; card_b] /\
      total after.2 = 2.
Proof.
  split; [reflexivity|].
  apply (check_right_answer (Flashcards.init [card_a; card_b])). reflexivity.
Defined.

(** C2.  In every state of a session with [has_next], [check] with a
    selection other than the stored answer returns [False] and leaves
    [score] (and [index]) unchanged; the card on display is appended to
    [missed_cards] unless an equal card is there already, and after any
    number (at least one) of such wrong submissions for it the card occurs
    in [missed_cards] exactly once. *)
Theorem check_wrong_answer_once (self : Flashcards) :
  reachable self ->
  Flashcards.has_next self = true ->
  exists c,
    Flashcards.current self = Ok c /\
    forall selected more,
      Forall (fun s => s ≠ answer c) (selected :: more) ->
      let first := Flashcards.check selected self in
      let after := check_each (selected :: more) self in
      first.1 = Ok false /\
      score first.2 = score self /\
      (c ∉ missed_cards self -> missed_cards first.2 = missed_cards self ++ [c]) /\
      (c ∈ missed_cards self -> missed_cards first.2 = missed_cards self) /\
      after.1 = Ok (replicate (S (length more)) false) /\
      score after.2 = score self /\
      index after.2 = index self /\
      missed_cards after.2 = missed_cards first.2 /\
      count_occ Card_eq_dec (missed_cards after.2) c = 1.
Proof.
  intros Hreach [c Hc]%has_next_current. exists c. split; [done|].
  intros selected more Hall. cbv zeta.
  rewrite (check_each_wrong _ _ c) by done.
  rewrite (check_wrong _ c) by (by inversion Hall).
  simpl. split_and!; try done.
  - unfold mark_missed. by case_decide.
  - unfold mark_missed. intros. by rewrite decide_False.
  - unfold mark_missed. intros. by rewrite decide_True.
  - unfold mark_missed. by case_decide.
  - unfold mark_missed. by case_decide.
  - apply mark_missed_count. by apply reachable_NoDup_missed.
Qed.

Lemma check_wrong_answer_once_witness :
  exists c,
    Flashcards.current (Flashcards.init [card_a; card_b]) = Ok c /\
    forall selected more,
      Forall (fun s => s ≠ answer c) (selected :: more) ->
      let first := Flashcards.check selected (Flashcards.init [card_a; card_b]) in
      let after := check_each (selected :: more) (Flashcards.init [card_a; card_b]) in
      first.1 = Ok false /\
      score first.2 = 0 /\
      (c ∉ [] -> missed_cards first.2 = [] ++ [c]) /\
      (c ∈ [] -> missed_cards first.2 = []) /\
      after.1 = Ok (replicate (S (length more)) false) /\
      score after.2 = 0 /\
      index after.2 = 0 /\
      missed_cards after.2 = missed_cards first.2 /\
      count_occ Card_eq_dec (missed_cards after.2) c = 1.
Proof.
  apply (check_wrong_answer_once (Flashcards.init [card_a; card_b])).
  - apply reach_init.
  - reflexivity.
Defined.

(** C3.  In every state, [reset_for_review] sets [total] to the number of
    cards missed so far, [score] and [index] to 0, empties [missed_cards],
    and makes the working sequence a permutation of the cards that were
    missed. *)
Theorem reset_for_review_spec (g : Rng) (self : Flashcards) :
  let after := (Flashcards.reset_for_review g self).1 in
  total after = length (missed_cards self) /\
  score after = 0 /\
  index after = 0 /\
  missed_cards after = [] /\
  cards after ≡ₚ missed_cards self.
Proof.
  simpl. rewrite reset_for_review_eq. simpl.
  split_and!; try done.
  - apply shuffle_length.
  - apply shuffle_Permutation.
Qed.

(** C4.  In every reachable state [total] is the length of the working
    sequence (true after [__init__], kept by [check], [next] and
    [reset_for_review]), so that [has_next], which compares [index] with
    [len(cards)], is true exactly when [index < total]. *)
Theorem has_next_iff_index_lt_total (self : Flashcards) :
  reachable self ->
  total self = length (cards self) /\
  (Flashcards.has_next self = true <-> index self < total self).
Proof.
  intros Hlen%reachable_total_is_len. split; [done|].
  unfold Flashcards.has_next. rewrite Hlen. apply Nat.ltb_lt.
Qed.

Lemma has_next_iff_index_lt_total_witness :
  let self := (Flashcards.next (Flashcards.init [card_a; card_b])).2 in
  total self = length (cards self) /\
  (Flashcards.has_next self = true <-> index self < total self).
Proof.
  apply (has_next_iff_index_lt_total
           (Flashcards.next (Flashcards.init [card_a; card_b])).2).
  apply reach_next, reach_init.
Defined.

Lemma advance_n_S n self :
  advance_n (S n) self = (Flashcards.next (advance_n n self)).2.
Proof. done. Qed.

Lemma advance_n_index n self : index (advance_n n self) = index self + n.
Proof.
  induction n as [|n IH]; [simpl; lia|].
  rewrite advance_n_S. cbn. rewrite IH. lia.
Qed.

Lemma advance_n_cards n self : cards (advance_n n self) = cards self.
Proof.
  induction n as [|n IH]; [done|].
  rewrite advance_n_S. cbn. exact IH.
Qed.

(** C5.  A fresh session over a deck of [n] cards has [total = n], and
    after exactly [total] calls of [next] its [has_next] is false. *)
Theorem no_next_after_total_advances (deck : list Card) :
  let fresh := Flashcards.init deck in
  total fresh = length deck /\
  Flashcards.has_next (advance_n (total fresh) fresh) = false.
Proof.
  simpl. split; [done|].
  unfold Flashcards.has_next.
  rewrite advance_n_index, advance_n_cards. simpl.
  apply Nat.ltb_ge. lia.
Qed.

(** C6.  In every state, [current] returns the card at [index] when
    [has_next] is true, and raises [IndexError] when it is false, that is
    when [index] is not below the length of the working sequence. *)
Theorem current_defined_iff_has_next (self : Flashcards) :
  (Flashcards.has_next self = true ->
   exists c, cards self !! index self = Some c /\
             Flashcards.current self = Ok c) /\
  (Flashcards.has_next self = false ->
   length (cards self) <= index self /\
   exists e, Flashcards.current self = Raise e /\ exn_cls e = IndexError) /\
  (length (cards self) <= index self -> Flashcards.has_next self = false).
Proof.
  split_and!.
  - intros [c Hc]%has_next_current. exists c. split; [|done].
    by apply current_Ok.
  - intros Hno. split.
    + by apply Nat.ltb_ge.
    + eexists. split; [by apply no_next_current|done].
  - intros Hle. by apply Nat.ltb_ge.
Qed.

Lemma current_defined_iff_has_next_witness :
  (exists c, [card_a; card_b] !! 0 = Some c /\
             Flashcards.current (Flashcards.init [card_a; card_b]) = Ok c) /\
  (exists e,
     Flashcards.current (advance_n 2 (Flashcards.init [card_a; card_b])) = Raise e /\
     exn_cls e = IndexError).
Proof.
  split.
  - apply (current_defined_iff_has_next (Flashcards.init [card_a; card_b])).
    reflexivity.
  - apply (current_defined_iff_has_next
             (advance_n 2 (Flashcards.init [card_a; card_b]))).
    reflexivity.
Defined.

Lemma step_index self c : index self <= index (step self c).
Proof. destruct c; simpl; [by rewrite check_index|lia]. Qed.

Lemma step_cards self c : cards (step self c) = cards self.
Proof. destruct c; simpl; [apply check_cards|done]. Qed.

Lemma run_cons c calls self : run (c :: calls) self = run calls (step self c).
Proof. done. Qed.

Lemma run_index calls self : index self <= index (run calls self).
Proof.
  revert self; induction calls as [|c calls IH]; intros self; [done|].
  rewrite run_cons. etrans; [apply (step_index self c)|apply IH].
Qed.

Lemma run_cards calls self : cards (run calls self) = cards self.
Proof.
  revert self; induction calls as [|c calls IH]; intros self; [done|].
  by rewrite run_cons, IH, step_cards.
Qed.

(** C10.  Under any sequence of calls of [check] and [next] the index never
    decreases and the working sequence stays the same, so once [has_next]
    is false it stays false: only [reset_for_review] leads from a complete
    session back into one in progress. *)
Theorem complete_stays_complete (calls : list call) (self : Flashcards) :
  Flashcards.has_next self = false ->
  index self <= index (run calls self) /\
  cards (run calls self) = cards self /\
  Flashcards.has_next (run calls self) = false.
Proof.
  intros Hno%Nat.ltb_ge. split_and!.
  - apply run_index.
  - apply run_cards.
  - apply Nat.ltb_ge. rewrite run_cards.
    etrans; [exact Hno|apply run_index].
Qed.

Lemma complete_stays_complete_witness :
  let self := advance_n 2 (Flashcards.init [card_a; card_b]) in
  let calls := [CallCheck "4"; CallNext; CallCheck "Paris"; CallNext] in
  index self <= index (run calls self) /\
  cards (run calls self) = cards self /\
  Flashcards.has_next (run calls self) = false.
Proof.
  apply (complete_stays_complete
           [CallCheck "4"; CallNext; CallCheck "Paris"; CallNext]
           (advance_n 2 (Flashcards.init [card_a; card_b]))).
  reflexivity.
Defined.

(** ** Text *)

Section TextFacts.
Implicit Types (s p a b suffix : string).

Lemma str_app_cons ch a b : String ch a +:+ b = String ch (a +:+ b).
Proof. done. Qed.

Lemma str_app_assoc a b s : (a +:+ b) +:+ s = a +:+ b +:+ s.
Proof.
  induction a as [|ch a IH]; [done|]. by rewrite !str_app_cons, IH.
Qed.

Lemma str_length_app a b :
  String.length (a +:+ b) = String.length a + String.length b.
Proof.
  induction a as [|ch a IH]; [done|]. rewrite str_app_cons. simpl.
  by rewrite IH.
Qed.

Lemma str_drop_app a b : str_drop (String.length a) (a +:+ b) = b.
Proof.
  induction a as [|ch a IH]; [by destruct b|]. rewrite str_app_cons.
  exact IH.
Qed.

Lemma str_drop_split n s :
  n <= String.length s ->
  exists stem, s = stem +:+ str_drop n s /\ String.length stem = n.
Proof.
  revert s; induction n as [|n IH]; intros s Hn.
  - exists EmptyString. by destruct s.
  - destruct s as [|ch s]; [simpl in Hn; lia|].
    destruct (IH s) as (stem & Hs & Hlen); [simpl in Hn; lia|].
    exists (String ch stem). rewrite str_app_cons. simpl.
    split; [by rewrite <- Hs|by rewrite Hlen].
Qed.

(** [endswith] holds exactly of the strings that are some stem followed by
    the suffix. *)
Lemma endswith_spec s suffix :
  endswith s suffix = true <-> exists stem, s = stem +:+ suffix.
Proof.
  unfold endswith. rewrite andb_true_iff, Nat.leb_le, bool_decide_eq_true.
  split.
  - intros [Hle Hdrop].
    destruct (str_drop_split (String.length s - String.length suffix) s)
      as (stem & Hs & _); [lia|].
    exists stem. by rewrite Hdrop in Hs.
  - intros [stem ->]. rewrite str_length_app. split; [lia|].
    replace (String.length stem + String.length suffix - String.length suffix)
      with (String.length stem) by lia.
    apply str_drop_app.
Qed.

Lemma is_json_spec f :
  is_json f = true <-> exists stem, lower f = stem +:+ ".json".
Proof. apply endswith_spec. Qed.

Lemma ascii_compare_refl (ch : ascii) : Ascii.compare ch ch = Eq.
Proof. unfold Ascii.compare. apply N.compare_refl. Qed.

(** A common prefix does not take part in the comparison. *)
Lemma compare_app p a b :
  String.compare (p +:+ a) (p +:+ b) = String.compare a b.
Proof.
  induction p as [|ch p IH]; [done|].
  rewrite !str_app_cons. simpl. by rewrite ascii_compare_refl.
Qed.

Lemma le_app p a b : String.le (p +:+ a) (p +:+ b) <-> String.le a b.
Proof. unfold String.le, String.leb. by rewrite compare_app. Qed.

Lemma join_entry directory f :
  startswith f "/" = false -> join directory f = dir_prefix directory +:+ f.
Proof.
  intros Hf. unfold join, dir_prefix. rewrite Hf.
  destruct (bool_decide (directory = "") || endswith directory "/"); [done|].
  by rewrite str_app_assoc.
Qed.

Lemma lower_app a b : lower (a +:+ b) = lower a +:+ lower b.
Proof.
  induction a as [|ch a IH]; [done|].
  rewrite str_app_cons. simpl. by rewrite IH, str_app_cons.
Qed.

(** The characters [str.lower] sends to a character of [".json"]. *)
Lemma lower_char_json (c : ascii) :
  (lower_char c = "." <-> c = ".")%char /\
  (lower_char c = "j" <-> c = "j" \/ c = "J")%char /\
  (lower_char c = "s" <-> c = "s" \/ c = "S")%char /\
  (lower_char c = "o" <-> c = "o" \/ c = "O")%char /\
  (lower_char c = "n" <-> c = "n" \/ c = "N")%char.
Proof.
  destruct c as [[] [] [] [] [] [] [] []]; vm_compute;
    (repeat split; intros H; try discriminate H;
     try (destruct H as [H|H]; discriminate H); auto).
Qed.

(** Lowercasing goes character by character. *)
Lemma lower_app_inv s a b :
  lower s = a +:+ b ->
  exists a' b', s = a' +:+ b' /\ lower a' = a /\ lower b' = b.
Proof.
  revert s; induction a as [|ch a IH]; intros s Hs.
  - by exists EmptyString, s.
  - destruct s as [|c s]; [done|].
    rewrite str_app_cons in Hs. simpl in Hs. injection Hs as Hc Hs.
    destruct (IH s Hs) as (a' & b' & -> & <- & <-).
    exists (String c a'), b'. by rewrite str_app_cons, <- Hc.
Qed.

Lemma lower_json_extension e : lower e = ".json" <-> json_extension e.
Proof.
  unfold json_extension. split.
  - destruct e as [|c0 [|c1 [|c2 [|c3 [|c4 [|]]]]]]; try done.
    simpl. intros [= H0 H1 H2 H3 H4].
    apply (lower_char_json c0) in H0 as ->.
    exists c1, c2, c3, c4. split; [done|].
    split_and!; by apply lower_char_json.
  - intros (c1 & c2 & c3 & c4 & -> & H1 & H2 & H3 & H4). simpl.
    apply (lower_char_json c1) in H1 as ->.
    apply (lower_char_json c2) in H2 as ->.
    apply (lower_char_json c3) in H3 as ->.
    by apply (lower_char_json c4) in H4 as ->.
Qed.

(** [is_json] holds exactly of the names that end with [".json"] written in
    any mix of cases. *)
Lemma is_json_nocase f : is_json f = true <-> json_name f.
Proof.
  rewrite is_json_spec. unfold json_name. split.
  - intros [stem (a & e & -> & _ & He)%lower_app_inv].
    exists a, e. split; [done|]. by apply lower_json_extension.
  - intros (stem & e & -> & He%lower_json_extension).
    exists (lower stem). by rewrite lower_app, He.
Qed.

End TextFacts.

(** ** The deck catalogue *)

Lemma sorted_StronglySorted l : StronglySorted String.le (sorted l).
Proof. apply StronglySorted_merge_sort; apply _. Qed.

Lemma sorted_Permutation l : sorted l ≡ₚ l.
Proof. apply merge_sort_Permutation. Qed.

(** Sorting commutes with putting one prefix in front of every string. *)
Lemma sorted_fmap_prefix p l :
  sorted (String.append p <$> l) = String.append p <$> sorted l.
Proof.
  apply (StronglySorted_unique String.le).
  - apply sorted_StronglySorted.
  - apply (StronglySorted_fmap _ String.le); [|apply sorted_StronglySorted].
    intros a b. apply le_app.
  - by rewrite !sorted_Permutation.
Qed.

Lemma join_fmap_entries directory names :
  entry_names names ->
  join directory <$> names = String.append (dir_prefix directory) <$> names.
Proof.
  intros Hnames. apply Forall_fmap_ext.
  eapply Forall_impl; [exact Hnames|].
  intros f Hf. by apply join_entry.
Qed.

(** What [find_decks] returns for a directory that can be listed. *)
Lemma find_decks_listing fs directory names :
  isdir fs directory = true ->
  listdir fs directory = Ok names ->
  find_decks fs directory =
  Ok (sorted (join directory <$> filter (fun f => is_json f) names)).
Proof. intros Hdir Hls. unfold find_decks. by rewrite Hdir, Hls. Qed.

(** The paths returned are in ascending order, whatever the names are. *)
Lemma find_decks_paths_sorted fs directory paths :
  find_decks fs directory = Ok paths -> StronglySorted String.le paths.
Proof.
  unfold find_decks. intros H.
  destruct (isdir fs directory); simpl in H.
  - destruct (listdir fs directory); simplify_eq.
    apply sorted_StronglySorted.
  - simplify_eq. constructor.
Qed.

(** C7.  [load_deck] raises the load error ([RuntimeError]) when the file
    cannot be read or parsed, and when it parses to an object of the deck
    file format that has no cards (the ["cards"] field absent, hence
    defaulted to the empty list, or empty); when it returns, the file held
    such an object and the card sequence is not empty (it is a
    rearrangement of the cards of the object).  A file that parses to a
    document that is no object makes it raise [AttributeError] instead, and
    no random number is drawn. *)
Theorem load_deck_errors (fs : FileSystem) (path : string) (g : Rng) :
  (forall e, read_json fs path = Raise e ->
     is_LoadError (load_deck fs path g).1 = true) /\
  (forall data, read_json fs path = Ok (JObject data) ->
     doc_cards data = None \/ doc_cards data = Some [] ->
     is_LoadError (load_deck fs path g).1 = true /\
     (load_deck fs path g).1 =
       Raise (Exn RuntimeError "Deck contains no cards.")) /\
  (forall title deck, (load_deck fs path g).1 = Ok (title, deck) ->
     deck ≠ [] /\
     exists data, read_json fs path = Ok (JObject data) /\
                  deck ≡ₚ default [] (doc_cards data)) /\
  (forall t, read_json fs path = Ok (JOther t) ->
     exists e, load_deck fs path g = (Raise e, g) /\
               exn_cls e = AttributeError).
Proof.
  unfold load_deck. split_and!.
  - intros e ->. done.
  - intros data -> [-> | ->]; done.
  - intros title deck.
    destruct (read_json fs path) as [[data|t]|e]; [|done..].
    case_bool_decide as Hempty; [done|].
    destruct (shuffle _ g) as [deck' g'] eqn:Hsh. simpl.
    intros [= <- <-].
    assert (deck' ≡ₚ default [] (doc_cards data)) as Hperm.
    { change deck' with (deck', g').1. rewrite <- Hsh.
      apply shuffle_Permutation. }
    split; [|by exists data].
    intros ->. apply Hempty. symmetry. by apply Permutation_nil_l.
  - intros t ->. by eexists.
Qed.

Lemma load_deck_errors_witness :
  is_LoadError (load_deck sample_fs "decks/missing.json" sample_rng).1 = true /\
  is_LoadError (load_deck sample_fs "decks/untitled.json" sample_rng).1 = true /\
  is_LoadError (load_deck sample_fs "decks/empty.json" sample_rng).1 = true /\
  [card_c; card_a; card_b] ≠ [] /\
  exists e, load_deck sample_fs "decks/list.json" sample_rng =
              (Raise e, sample_rng) /\
            exn_cls e = AttributeError.
Proof.
  split_and!.
  - apply (load_deck_errors sample_fs "decks/missing.json" sample_rng)
      with (e := Exn OSError "No such file or directory").
    reflexivity.
  - apply (load_deck_errors sample_fs "decks/untitled.json" sample_rng)
      with (data := mkDocument None None); [reflexivity|by left].
  - apply (load_deck_errors sample_fs "decks/empty.json" sample_rng)
      with (data := mkDocument None (Some [])); [reflexivity|by right].
  - apply (load_deck_errors sample_fs "decks/math.json" sample_rng)
      with (title := "Math").
    reflexivity.
  - apply (load_deck_errors sample_fs "decks/list.json" sample_rng)
      with (t := py_list).
    reflexivity.
Defined.

(** A file that holds the JSON list [[]] is read and parsed, and holds no
    card; [load_deck] fails on it, and not with the load error: [data.get]
    is called after the [try] statement, on a list. *)
Lemma load_deck_list_document :
  read_json sample_fs "decks/list.json" = Ok (JOther py_list) /\
  cards_in (JOther py_list) = [] /\
  (load_deck sample_fs "decks/list.json" sample_rng).1 =
    Raise (Exn AttributeError "'list' object has no attribute 'get'") /\
  is_LoadError (load_deck sample_fs "decks/list.json" sample_rng).1 = false.
Proof. split_and!; reflexivity. Qed.

(** C8.  For a directory that does not exist, [find_decks] returns the
    empty list; it raises nothing (the directory is not listed). *)
Theorem find_decks_missing_directory (fs : FileSystem) (directory : string) :
  isdir fs directory = false -> find_decks fs directory = Ok [].
Proof. intros Hdir. unfold find_decks. by rewrite Hdir. Qed.

Lemma find_decks_missing_directory_witness :
  isdir sample_fs "nowhere" = false /\ find_decks sample_fs "nowhere" = Ok [].
Proof.
  split; [reflexivity|].
  apply (find_decks_missing_directory sample_fs "nowhere"). reflexivity.
Defined.

(** C9.  For an existing directory that [os.listdir] lists, with entries
    [names], [find_decks] returns [os.path.join] of the directory with
    exactly the entries whose name ends with [".json"] in any mix of upper
    and lower case, each as often as it is listed; the entries appear in
    ascending order of their names, and so do the paths.  For an existing
    directory on which [os.listdir] raises, [find_decks] raises the same
    exception. *)
Theorem find_decks_json_sorted (fs : FileSystem) (directory : string) :
  isdir fs directory = true ->
  (forall names,
     listdir fs directory = Ok names ->
     entry_names names ->
     exists selected,
       find_decks fs directory = Ok (join directory <$> selected) /\
       (forall f, f ∈ selected <-> f ∈ names /\ json_name f) /\
       (forall f, json_name f ->
          count_occ String.string_dec selected f =
          count_occ String.string_dec names f) /\
       StronglySorted String.le selected /\
       StronglySorted String.le (join directory <$> selected)) /\
  (forall e,
     listdir fs directory = Raise e -> find_decks fs directory = Raise e).
Proof.
  intros Hdir. split; [|intros e He; unfold find_decks; by rewrite Hdir, He].
  intros names Hls Hnames.
  set (chosen := filter (fun f => is_json f) names).
  assert (entry_names chosen) as Hchosen.
  { unfold entry_names in *. rewrite Forall_forall in *.
    intros f [_ Hf]%list_elem_of_filter. by apply Hnames. }
  assert (entry_names (sorted chosen)) as Hsorted.
  { unfold entry_names. by rewrite sorted_Permutation. }
  assert (find_decks fs directory = Ok (join directory <$> sorted chosen))
    as Hfind.
  { rewrite (find_decks_listing _ _ names) by done. fold chosen.
    rewrite (join_fmap_entries _ chosen), (join_fmap_entries _ (sorted chosen))
      by done.
    by rewrite sorted_fmap_prefix. }
  exists (sorted chosen). split_and!.
  - exact Hfind.
  - intros f. rewrite sorted_Permutation. unfold chosen.
    rewrite list_elem_of_filter, <- is_json_nocase, Is_true_true. tauto.
  - intros f Hf%is_json_nocase.
    rewrite (proj1 (Permutation_count_occ String.string_dec _ _)
               (sorted_Permutation chosen) f).
    unfold chosen. clear -Hf. induction names as [|n names IH]; [done|].
    rewrite filter_cons. destruct (decide (n = f)) as [->|Hn].
    + rewrite decide_True by by rewrite Is_true_true.
      by rewrite !count_occ_cons_eq, IH.
    + case_decide; rewrite ?count_occ_cons_neq by done; apply IH.
  - apply sorted_StronglySorted.
  - by apply (find_decks_paths_sorted fs directory).
Qed.

Lemma find_decks_json_sorted_witness :
  (exists selected,
     find_decks sample_fs "decks" = Ok (join "decks" <$> selected) /\
     (forall f, f ∈ selected <->
                f ∈ ["zoo.JSON"; "notes.txt"; "math.json"; "json"; "Bio.Json"] /\
                json_name f) /\
     (forall f, json_name f ->
        count_occ String.string_dec selected f =
        count_occ String.string_dec
          ["zoo.JSON"; "notes.txt"; "math.json"; "json"; "Bio.Json"] f) /\
     StronglySorted String.le selected /\
     StronglySorted String.le (join "decks" <$> selected)) /\
  find_decks locked_fs "decks" = Raise (Exn OSError "Permission denied").
Proof.
  split.
  - apply (find_decks_json_sorted sample_fs "decks");
      [reflexivity|reflexivity|].
    unfold entry_names. repeat constructor.
  - apply (find_decks_json_sorted locked_fs "decks"); reflexivity.
Defined.

(** A directory that exists and may not be listed: [find_decks] returns no
    sequence, it passes on what [os.listdir] raises. *)
Lemma find_decks_locked_directory :
  isdir locked_fs "decks" = true /\
  find_decks locked_fs "decks" = Raise (Exn OSError "Permission denied").
Proof. split; reflexivity. Qed.

(** ** The sample data, run *)

Example find_decks_sample :
  find_decks sample_fs "decks" =
  Ok ["decks/Bio.Json"; "decks/math.json"; "decks/zoo.JSON"].
Proof. reflexivity. Qed.

Example load_deck_sample :
  (load_deck sample_fs "decks/math.json" sample_rng).1 =
  Ok ("Math", [card_c; card_a; card_b]).
Proof. reflexivity. Qed.

Example shuffle_sample : (shuffle [1; 2; 3; 4; 5] sample_rng).1 = [3; 4; 5; 1; 2].
Proof. reflexivity. Qed.

(** Three cards, the first answered right and the other two wrong; then the
    review of the two missed cards, both answered right. *)
Example review_round :
  let played :=
    run [CallCheck "4"; CallNext; CallCheck "Rome"; CallNext; CallCheck "Mars"; CallCheck "Mars"; CallNext]
        (Flashcards.init [card_a; card_b; card_c]) in
  let review := (Flashcards.reset_for_review sample_rng played).1 in
  let replayed := run [CallCheck "Paris"; CallNext; CallCheck "Jupiter"; CallNext] review in
  Flashcards.has_next played = false /\
  score played = 1 /\ missed_cards played = [card_b; card_c] /\
  cards review = [card_b; card_c] /\
  score replayed = 2 /\ total replayed = 2 /\ missed_cards replayed = [] /\
  Flashcards.has_next replayed = false.
Proof. repeat split; reflexivity. Qed.

(** * Further properties of the session *)

Section SessionEdges.
Implicit Types (self : Flashcards) (c : Card) (selected : string).

(** X1.  On a session with no card left, [check] raises [IndexError] (from
    [current]) before it touches anything: score, missed cards and index
    are as before the call. *)
Theorem check_on_complete_session self selected :
  Flashcards.has_next self = false ->
  Flashcards.check selected self =
  (Raise (Exn IndexError "list index out of range"), self).
Proof. intros Hno. by rewrite check_eq, no_next_current. Qed.

Lemma check_on_complete_session_witness :
  Flashcards.check "4" (advance_n 2 (Flashcards.init [card_a; card_b])) =
  (Raise (Exn IndexError "list index out of range"),
   advance_n 2 (Flashcards.init [card_a; card_b])).
Proof.
  apply (check_on_complete_session
           (advance_n 2 (Flashcards.init [card_a; card_b])) "4").
  reflexivity.
Defined.

Lemma check_missed_within selected self :
  (forall c, c ∈ missed_cards self -> c ∈ cards self) ->
  forall c, c ∈ missed_cards (Flashcards.check selected self).2 ->
            c ∈ cards self.
Proof.
  intros Hsub c. rewrite check_eq.
  destruct (Flashcards.current self) as [cur|e] eqn:Hcur; [|by apply Hsub].
  apply current_Ok in Hcur.
  repeat case_match; simpl; try by apply Hsub.
  intros [Hc | ->%list_elem_of_singleton]%elem_of_app; [by apply Hsub|].
  by eapply list_elem_of_lookup_2.
Qed.

Lemma reachable_missed_within self :
  reachable self -> forall c, c ∈ missed_cards self -> c ∈ cards self.
Proof.
  induction 1 as [cs|selected self _ IH|self _ IH|g self _ _]; intros c.
  - by intros ?%elem_of_nil.
  - rewrite check_cards. by apply check_missed_within.
  - apply IH.
  - rewrite reset_for_review_eq. by intros ?%elem_of_nil.
Qed.

Lemma reachable_missed_length self :
  reachable self -> length (missed_cards self) <= total self.
Proof.
  intros Hreach. rewrite (reachable_total_is_len self Hreach).
  apply submseteq_length, NoDup_submseteq.
  - by apply reachable_NoDup_missed.
  - by apply reachable_missed_within.
Qed.

(** X2.  In every state of a session the missed cards are distinct cards of
    the working sequence, so there are at most [total] of them. *)
Theorem missed_cards_within_deck self :
  reachable self ->
  NoDup (missed_cards self) /\
  (forall c, c ∈ missed_cards self -> c ∈ cards self) /\
  length (missed_cards self) <= total self.
Proof.
  intros Hreach. split_and!.
  - by apply reachable_NoDup_missed.
  - by apply reachable_missed_within.
  - by apply reachable_missed_length.
Qed.

Lemma missed_cards_within_deck_witness :
  let self := (Flashcards.check "Rome" (Flashcards.init [card_b; card_c])).2 in
  NoDup (missed_cards self) /\
  (forall c, c ∈ missed_cards self -> c ∈ cards self) /\
  length (missed_cards self) <= total self.
Proof.
  apply (missed_cards_within_deck
           (Flashcards.check "Rome" (Flashcards.init [card_b; card_c])).2).
  apply reach_check, reach_init.
Defined.

(** X3.  A review pass is never longer than the pass it follows, and each of
    its cards is a card of that pass. *)
Theorem review_never_longer g self :
  reachable self ->
  let review := (Flashcards.reset_for_review g self).1 in
  total review <= total self /\
  (forall c, c ∈ cards review -> c ∈ cards self).
Proof.
  intros Hreach. simpl. rewrite reset_for_review_eq. simpl.
  split.
  - rewrite shuffle_length. by apply reachable_missed_length.
  - intros c. rewrite shuffle_Permutation. by apply reachable_missed_within.
Qed.

Lemma review_never_longer_witness :
  let self := (Flashcards.check "Rome" (Flashcards.init [card_b; card_c])).2 in
  let review := (Flashcards.reset_for_review sample_rng self).1 in
  total review <= total self /\
  (forall c, c ∈ cards review -> c ∈ cards self).
Proof.
  apply (review_never_longer sample_rng
           (Flashcards.check "Rome" (Flashcards.init [card_b; card_c])).2).
  apply reach_check, reach_init.
Defined.

Lemma step_score self (c : call) : score self <= score (step self c).
Proof.
  destruct c as [selected|]; simpl; [|done].
  rewrite check_eq. repeat case_match; simpl; lia.
Qed.

Lemma step_missed self (c : call) :
  missed_cards self `prefix_of` missed_cards (step self c).
Proof.
  destruct c as [selected|]; simpl; [|done].
  rewrite check_eq. repeat case_match; simpl; try done.
  by apply prefix_app_r.
Qed.

Lemma step_total self (c : call) : total (step self c) = total self.
Proof. destruct c; simpl; [apply check_total|done]. Qed.

(** X4.  Calls of [check] and [next] never take anything back: the score
    does not decrease, cards once missed stay in [missed_cards] in their
    order (the list only grows at its end), and [total] is unchanged. *)
Theorem check_next_monotone (calls : list call) self :
  score self <= score (run calls self) /\
  missed_cards self `prefix_of` missed_cards (run calls self) /\
  total (run calls self) = total self.
Proof.
  revert self; induction calls as [|c calls IH]; intros self; [done|].
  rewrite run_cons. destruct (IH (step self c)) as (Hs & Hm & Ht).
  split_and!.
  - etrans; [apply (step_score self c)|done].
  - etrans; [apply (step_missed self c)|done].
  - by rewrite Ht, step_total.
Qed.

(** X5.  After [reset_for_review] there is a card to show exactly when
    some card had been missed; with nothing missed the review session is
    empty ([total] 0, no next card). *)
Theorem review_has_next_iff_missed g self :
  let review := (Flashcards.reset_for_review g self).1 in
  (Flashcards.has_next review = true <-> missed_cards self ≠ []) /\
  (missed_cards self = [] -> review = Flashcards.init []).
Proof.
  simpl. rewrite reset_for_review_eq. unfold Flashcards.has_next. simpl.
  rewrite shuffle_length, Nat.ltb_lt. split.
  - destruct (missed_cards self); simpl; split; (done || lia).
  - by intros ->.
Qed.

Lemma review_has_next_iff_missed_witness :
  let review :=
    (Flashcards.reset_for_review sample_rng (Flashcards.init [card_a])).1 in
  review = Flashcards.init [].
Proof.
  apply (review_has_next_iff_missed sample_rng (Flashcards.init [card_a])).
  reflexivity.
Defined.

(** X6.  [reset_for_review] uses the missed cards up: a second reset right
    after the first leaves the empty session, whatever was missed. *)
Theorem review_twice_is_empty g1 g2 self :
  (Flashcards.reset_for_review g2
     (Flashcards.reset_for_review g1 self).1).1 = Flashcards.init [].
Proof. by rewrite (reset_for_review_eq g2), (reset_for_review_eq g1). Qed.

End SessionEdges.

(** ** A deck played through, one answer per card *)

Section Play.
Implicit Types (self : Flashcards) (c : Card) (selected : string).

Lemma marks_true_cons b bs :
  marks_true (b :: bs) = (if b then 1 else 0) + marks_true bs.
Proof.
  unfold marks_true. destruct b.
  - by rewrite filter_cons_True.
  - by rewrite filter_cons_False.
Qed.

Lemma graded_cons c cs selected rest :
  graded (c :: cs) (selected :: rest) =
  bool_decide (selected = answer c) :: graded cs rest.
Proof. done. Qed.

Lemma graded_nil_r cs : graded cs [] = [].
Proof. by destruct cs. Qed.

Lemma answer_and_advance_eq selected self :
  answer_and_advance selected self =
  match Flashcards.current self with
  | Raise e => (Raise e, self)
  | Ok c =>
      if decide (selected = answer c)
      then (Ok true, set_index (index self + 1) (set_score (score self + 1) self))
      else (Ok false, set_index (index self + 1) (mark_missed c self))
  end.
Proof.
  unfold answer_and_advance, bind at 1. rewrite check_eq.
  destruct (Flashcards.current self) as [c|e]; [|done].
  unfold mark_missed. repeat case_decide; done.
Qed.

(** One card played: what [check] did, and the index moved by one. *)
Lemma answer_and_advance_spec selected self c :
  cards self !! index self = Some c ->
  let mark := bool_decide (selected = answer c) in
  exists mid,
    answer_and_advance selected self = (Ok mark, mid) /\
    cards mid = cards self /\ total mid = total self /\
    index mid = S (index self) /\
    score mid = score self + (if mark then 1 else 0) /\
    (forall c0, c0 ∈ missed_cards mid <->
                c0 ∈ missed_cards self \/ (c0 = c /\ selected ≠ answer c)) /\
    (NoDup (missed_cards self) -> NoDup (missed_cards mid)) /\
    length (missed_cards mid) + (if mark then 1 else 0)
    <= length (missed_cards self) + 1.
Proof.
  intros Hc%current_Ok. simpl. rewrite answer_and_advance_eq, Hc.
  destruct (decide (selected = answer c)) as [Heq|Hne].
  - rewrite bool_decide_eq_true_2 by done. eexists. split; [done|]. simpl.
    split_and!; try done; try lia.
    intros c0. split; [by left|]. by intros [?|[_ ?]].
  - rewrite bool_decide_eq_false_2 by done. eexists. split; [done|].
    unfold mark_missed. case_decide as Hin; simpl.
    + split_and!; try done; try lia.
      intros c0. split; [by left|]. by intros [?|[-> _]].
    + split_and!; try done; try lia.
      * intros c0. rewrite elem_of_app, list_elem_of_singleton. tauto.
      * intros Hnd. apply NoDup_app.
        split_and!; [done| |apply NoDup_singleton].
        by intros x Hx ->%list_elem_of_singleton.
      * rewrite length_app. simpl. lia.
Qed.

Lemma play_spec selections self :
  index self + length selections <= length (cards self) ->
  exists final,
    play selections self =
      (Ok (graded (drop (index self) (cards self)) selections), final) /\
    played selections self final.
Proof.
  revert self. induction selections as [|selected rest IH]; intros self Hlen.
  - exists self. rewrite graded_nil_r. split; [done|].
    split; rewrite ?graded_nil_r; simpl; try done; try lia.
    intros c. split; [by left|].
    intros [?|(i & s & _ & Hs & _)]; [done|]. by rewrite lookup_nil in Hs.
  - simpl in Hlen.
    destruct (cards self !! index self) as [c|] eqn:Hc;
      [|apply lookup_ge_None in Hc; lia].
    destruct (answer_and_advance_spec selected self c Hc)
      as (mid & Hstep & Hcards & Htotal & Hindex & Hscore & Hmiss & Hnd & Hcnt).
    destruct (IH mid) as (final & Hplay & Hfin); [rewrite Hcards, Hindex; lia|].
    destruct Hfin as [F1 F2 F3 F4 F5 F6 F7].
    rewrite Hcards, Hindex in *.
    exists final. split.
    + change (play (selected :: rest)) with
        (b <- answer_and_advance selected ;; bs <- play rest ;; ret (b :: bs)).
      unfold bind at 1. rewrite Hstep. unfold bind at 1. rewrite Hplay.
      by rewrite (drop_S _ c (index self)), graded_cons.
    + split; rewrite ?(drop_S _ c (index self)), ?graded_cons,
        ?marks_true_cons by done; simpl; try congruence; try lia.
      * intros c0. rewrite F5, Hmiss. split.
        -- intros [[?|[-> Hw]]|(i & s & Hi & Hs & Hw)]; [by left| |].
           ++ right. exists 0, selected. by rewrite Nat.add_0_r.
           ++ right. exists (S i), s. split_and!; try done.
              by replace (index self + S i) with (S (index self) + i) by lia.
        -- intros [?|(i & s & Hi & Hs & Hw)]; [by left; left|].
           destruct i as [|i].
           ++ simpl in Hs. rewrite Nat.add_0_r in Hi. simplify_eq.
              by left; right.
           ++ right. exists i, s. split_and!; try done.
              by replace (S (index self) + i) with (index self + S i) by lia.
      * by intros ?%Hnd%F6.
Qed.

End Play.

(** X7.  A fresh session played through with one selection per card returns
    the mark of each selection and ends complete; the score is the number
    of right answers; the missed cards are exactly the cards that got a
    wrong answer, each once, so that score and missed cards together never
    exceed [total]. *)
Theorem play_whole_deck (deck : list Card) (selections : list string) :
  length selections = length deck ->
  exists final,
    play selections (Flashcards.init deck) =
      (Ok (graded deck selections), final) /\
    Flashcards.has_next final = false /\
    index final = total final /\
    total final = length deck /\
    score final = marks_true (graded deck selections) /\
    score final + length (missed_cards final) <= total final /\
    NoDup (missed_cards final) /\
    (forall c, c ∈ missed_cards final <->
       exists i selected,
         deck !! i = Some c /\ selections !! i = Some selected /\
         selected ≠ answer c).
Proof.
  intros Hlen.
  destruct (play_spec selections (Flashcards.init deck))
    as (final & Hplay & [F1 F2 F3 F4 F5 F6 F7]); [simpl; lia|].
  simpl in *. exists final. split_and!; try done.
  - unfold Flashcards.has_next. rewrite F1, F3. apply Nat.ltb_ge. lia.
  - lia.
  - lia.
  - apply F6, NoDup_nil_2.
  - intros c. rewrite F5. split.
    + intros [?%elem_of_nil|?]; done.
    + by right.
Qed.

Lemma play_whole_deck_witness :
  exists final,
    play ["4"; "Rome"; "Mars"] (Flashcards.init [card_a; card_b; card_c]) =
      (Ok (graded [card_a; card_b; card_c] ["4"; "Rome"; "Mars"]), final) /\
    Flashcards.has_next final = false /\
    index final = total final /\
    total final = 3 /\
    score final =
      marks_true (graded [card_a; card_b; card_c] ["4"; "Rome"; "Mars"]) /\
    score final + length (missed_cards final) <= total final /\
    NoDup (missed_cards final) /\
    (forall c, c ∈ missed_cards final <->
       exists i selected,
         [card_a; card_b; card_c] !! i = Some c /\
         ["4"; "Rome"; "Mars"] !! i = Some selected /\
         selected ≠ answer c).
Proof.
  apply (play_whole_deck [card_a; card_b; card_c] ["4"; "Rome"; "Mars"]).
  reflexivity.
Defined.

Lemma graded_answers deck :
  graded deck (answer <$> deck) = replicate (length deck) true.
Proof.
  induction deck as [|c deck IH]; [done|].
  rewrite fmap_cons, graded_cons, IH. by rewrite bool_decide_eq_true_2.
Qed.

Lemma marks_true_replicate n : marks_true (replicate n true) = n.
Proof.
  induction n as [|n IH]; [done|].
  simpl. rewrite marks_true_cons, IH. done.
Qed.

(** X8.  When every card gets its stored answer, every mark is [True], the
    score reaches [total] and no card is missed: a review started then is
    the empty session. *)
Theorem play_all_right (deck : list Card) (g : Rng) :
  exists final,
    play (answer <$> deck) (Flashcards.init deck) =
      (Ok (replicate (length deck) true), final) /\
    score final = total final /\
    missed_cards final = [] /\
    (Flashcards.reset_for_review g final).1 = Flashcards.init [].
Proof.
  destruct (play_spec (answer <$> deck) (Flashcards.init deck))
    as (final & Hplay & [F1 F2 F3 F4 F5 F6 F7]);
    [simpl; by rewrite length_fmap|].
  simpl in *. rewrite graded_answers in Hplay, F4.
  rewrite marks_true_replicate in F4.
  assert (missed_cards final = []) as Hnone.
  { apply elem_of_nil_inv. intros c [?%elem_of_nil|(i & s & Hc & Hs & Hw)]%F5;
      [done|].
    rewrite list_lookup_fmap, Hc in Hs. by simplify_eq/=. }
  exists final. split_and!; [done|lia|done|].
  by rewrite reset_for_review_eq, Hnone.
Qed.

(** * Further properties of the deck catalogue *)

Section CatalogueFacts.
Implicit Types (fs : FileSystem) (directory f p : string)
  (names paths : list string).

Lemma sorted_Permutation_eq (l k : list string) :
  l ≡ₚ k -> sorted l = sorted k.
Proof.
  intros Hlk. apply (StronglySorted_unique String.le).
  - apply sorted_StronglySorted.
  - apply sorted_StronglySorted.
  - by rewrite !sorted_Permutation.
Qed.

(** X9.  The order in which [os.listdir] happens to give the entries does
    not show: two listings of the same entries give the same list of
    decks. *)
Theorem find_decks_listing_order fs1 fs2 directory names1 names2 :
  isdir fs1 directory = true -> listdir fs1 directory = Ok names1 ->
  isdir fs2 directory = true -> listdir fs2 directory = Ok names2 ->
  names1 ≡ₚ names2 ->
  find_decks fs1 directory = find_decks fs2 directory.
Proof.
  intros Hd1 Hl1 Hd2 Hl2 Hperm.
  rewrite (find_decks_listing fs1 _ names1), (find_decks_listing fs2 _ names2)
    by done.
  f_equal. apply sorted_Permutation_eq. by rewrite Hperm.
Qed.

Lemma find_decks_listing_order_witness :
  find_decks sample_fs "decks" =
  find_decks
    (mkFileSystem (fun _ => true)
       (fun _ => Ok ["json"; "Bio.Json"; "math.json"; "notes.txt"; "zoo.JSON"])
       (read_json sample_fs))
    "decks".
Proof.
  apply (find_decks_listing_order sample_fs _ "decks"
           ["zoo.JSON"; "notes.txt"; "math.json"; "json"; "Bio.Json"]
           ["json"; "Bio.Json"; "math.json"; "notes.txt"; "zoo.JSON"]);
    try reflexivity.
  apply (Permutation_cons_app ["json"; "Bio.Json"; "math.json"; "notes.txt"]).
  apply (Permutation_cons_app ["json"; "Bio.Json"; "math.json"]).
  apply (Permutation_cons_app ["json"; "Bio.Json"]).
  reflexivity.
Defined.

Lemma is_json_app a f : is_json f = true -> is_json (a +:+ f) = true.
Proof.
  rewrite !is_json_spec. intros [stem Hstem].
  exists (lower a +:+ stem). by rewrite lower_app, Hstem, str_app_assoc.
Qed.

Lemma is_json_join directory f :
  is_json f = true -> is_json (join directory f) = true.
Proof.
  intros Hf. unfold join. repeat case_match; try done.
  - by apply is_json_app.
  - by apply is_json_app, is_json_app.
Qed.

(** X10.  Every path [find_decks] returns ends, case-insensitively, with
    [".json"], in whatever way the directory name was joined on. *)
Theorem find_decks_paths_are_json fs directory paths :
  find_decks fs directory = Ok paths ->
  forall p, p ∈ paths -> is_json p = true.
Proof.
  unfold find_decks. intros Hfind p Hp.
  destruct (isdir fs directory); simpl in Hfind;
    [|simplify_eq; by apply elem_of_nil in Hp].
  destruct (listdir fs directory) as [names|e]; simplify_eq.
  rewrite sorted_Permutation in Hp.
  apply list_elem_of_fmap in Hp as (f & -> & Hf).
  apply list_elem_of_filter in Hf as [Hjson _].
  apply is_json_join. by apply Is_true_true.
Qed.

Lemma find_decks_paths_are_json_witness :
  is_json "decks/zoo.JSON" = true.
Proof.
  apply (find_decks_paths_are_json sample_fs "decks"
           ["decks/Bio.Json"; "decks/math.json"; "decks/zoo.JSON"]).
  - reflexivity.
  - repeat constructor.
Defined.

Lemma join_entry_inj directory names :
  entry_names names -> NoDup names -> NoDup (join directory <$> names).
Proof.
  intros Hnames Hnd. rewrite join_fmap_entries by done.
  by apply (NoDup_fmap_2 (String.append (dir_prefix directory))).
Qed.

(** X11.  Distinct entries give distinct paths: when the listing has no
    name twice, no deck is returned twice, and there are as many decks as
    entries named [*.json]. *)
Theorem find_decks_no_duplicates fs directory names paths :
  isdir fs directory = true ->
  listdir fs directory = Ok names ->
  entry_names names ->
  NoDup names ->
  find_decks fs directory = Ok paths ->
  NoDup paths /\
  length paths = length (filter (fun f => is_json f) names).
Proof.
  intros Hdir Hls Hnames Hnd.
  rewrite (find_decks_listing fs _ names) by done. intros [= <-].
  rewrite sorted_Permutation, length_fmap. split; [|done].
  apply join_entry_inj.
  - unfold entry_names in *. rewrite Forall_forall in *.
    intros f [_ Hf]%list_elem_of_filter. by apply Hnames.
  - by apply NoDup_filter.
Qed.

Lemma find_decks_no_duplicates_witness :
  NoDup ["decks/Bio.Json"; "decks/math.json"; "decks/zoo.JSON"] /\
  length ["decks/Bio.Json"; "decks/math.json"; "decks/zoo.JSON"] =
  length (filter (fun f => is_json f)
            ["zoo.JSON"; "notes.txt"; "math.json"; "json"; "Bio.Json"]).
Proof.
  apply (find_decks_no_duplicates sample_fs "decks"
           ["zoo.JSON"; "notes.txt"; "math.json"; "json"; "Bio.Json"]).
  - reflexivity.
  - reflexivity.
  - unfold entry_names. repeat constructor.
  - refine (bool_decide_unpack
              (NoDup ["zoo.JSON"; "notes.txt"; "math.json"; "json"; "Bio.Json"])
              _).
    vm_compute. exact I.
  - reflexivity.
Defined.

(** X12.  For a directory that exists, the list of decks is empty exactly
    when no entry is named [*.json] (in any case of letters). *)
Theorem find_decks_empty_iff fs directory names :
  isdir fs directory = true ->
  listdir fs directory = Ok names ->
  find_decks fs directory = Ok [] <->
  forall f, f ∈ names -> is_json f = false.
Proof.
  intros Hdir Hls. rewrite (find_decks_listing fs _ names) by done.
  split.
  - intros [= Hnil] f Hf.
    assert (join directory <$> filter (fun f => is_json f) names = [])
      as Hmap.
    { apply Permutation_nil_r. rewrite <- Hnil. symmetry.
      apply sorted_Permutation. }
    clear Hnil. apply fmap_nil_inv in Hmap as Hnil.
    destruct (is_json f) eqn:Hjson; [|done].
    exfalso. eapply (filter_nil_not_elem_of _ names f); [exact Hnil| |done].
    by apply Is_true_true.
  - intros Hnone. f_equal.
    assert (filter (fun f => is_json f) names = []) as ->; [|done].
    apply elem_of_nil_inv. intros f [Hjson Hf]%list_elem_of_filter.
    apply Is_true_true in Hjson. by rewrite (Hnone f Hf) in Hjson.
Qed.

Lemma find_decks_empty_iff_witness :
  find_decks sample_fs "decks" = Ok [] <->
  forall f,
    f ∈ ["zoo.JSON"; "notes.txt"; "math.json"; "json"; "Bio.Json"] ->
    is_json f = false.
Proof.
  apply (find_decks_empty_iff sample_fs "decks"); reflexivity.
Defined.

End CatalogueFacts.

(** * Further properties of loading *)

Section LoadingFacts.
Implicit Types (fs : FileSystem) (path : string) (g : Rng).

Lemma load_deck_Ok fs path g data deck_cards :
  read_json fs path = Ok (JObject data) ->
  doc_cards data = Some deck_cards ->
  deck_cards ≠ [] ->
  load_deck fs path g =
  (Ok (default "Untitled Deck" (doc_title data), (shuffle deck_cards g).1),
   (shuffle deck_cards g).2).
Proof.
  intros Hread Hcards Hne. unfold load_deck. rewrite Hread, Hcards. simpl.
  rewrite bool_decide_eq_false_2 by done.
  by destruct (shuffle deck_cards g).
Qed.

(** X13.  A readable deck file with at least one card always loads: the
    title is the stored one, or ["Untitled Deck"] when the file has none,
    and the cards returned are the cards of the file, all of them, in some
    order. *)
Theorem load_deck_success fs path g data deck_cards :
  read_json fs path = Ok (JObject data) ->
  doc_cards data = Some deck_cards ->
  deck_cards ≠ [] ->
  exists deck,
    (load_deck fs path g).1 =
      Ok (match doc_title data with
          | Some title => title
          | None => "Untitled Deck"
          end, deck) /\
    deck ≡ₚ deck_cards /\
    length deck = length deck_cards.
Proof.
  intros Hread Hcards Hne.
  rewrite (load_deck_Ok fs path g data deck_cards) by done.
  eexists. split; [by destruct (doc_title data)|].
  split; [apply shuffle_Permutation|apply shuffle_length].
Qed.

Lemma load_deck_success_witness :
  exists deck,
    (load_deck sample_fs "decks/math.json" sample_rng).1 = Ok ("Math", deck) /\
    deck ≡ₚ [card_a; card_b; card_c] /\
    length deck = 3.
Proof.
  apply (load_deck_success sample_fs "decks/math.json" sample_rng
           (mkDocument (Some "Math") (Some [card_a; card_b; card_c]))
           [card_a; card_b; card_c]); done.
Defined.

(** X14.  What [load_deck] raises on a file that cannot be read or parsed,
    that parses to an object of the deck file format, or that parses to no
    object at all.  It is a [RuntimeError] in the first two cases: the
    message names the path and carries the text of the exception that
    [open] or [json.load] raised, or says that the deck has no cards.  It
    is the [AttributeError] of the missing [get] in the third case, the
    lookup being made after the [try] statement.  A failed load has drawn
    no random number. *)
Theorem load_deck_failure fs path g e :
  (load_deck fs path g).1 = Raise e ->
  (load_deck fs path g).2 = g /\
  ((exists data, read_json fs path = Ok (JObject data) /\
                 default [] (doc_cards data) = [] /\
                 e = Exn RuntimeError "Deck contains no cards.") \/
   (exists cause, read_json fs path = Raise cause /\
                  e = Exn RuntimeError
                        ("Failed to load deck '" +:+ path +:+ "': " +:+
                         exn_msg cause)) \/
   (exists t, read_json fs path = Ok (JOther t) /\
              e = Exn AttributeError
                    ("'" +:+ type_name t +:+
                     "' object has no attribute 'get'"))).
Proof.
  unfold load_deck.
  destruct (read_json fs path) as [[data|t]|cause] eqn:Hread.
  - simpl. case_bool_decide as Hempty.
    + intros [= <-]. split; [done|]. left. by exists data.
    + by destruct (shuffle _ g).
  - intros [= <-]. split; [done|]. right. right. by exists t.
  - intros [= <-]. split; [done|]. right. left. by exists cause.
Qed.

Lemma load_deck_failure_witness :
  (load_deck sample_fs "decks/list.json" sample_rng).2 = sample_rng /\
  ((exists data, read_json sample_fs "decks/list.json" = Ok (JObject data) /\
                 default [] (doc_cards data) = [] /\
                 Exn AttributeError "'list' object has no attribute 'get'" =
                 Exn RuntimeError "Deck contains no cards.") \/
   (exists cause, read_json sample_fs "decks/list.json" = Raise cause /\
                  Exn AttributeError "'list' object has no attribute 'get'" =
                  Exn RuntimeError
                    ("Failed to load deck '" +:+ "decks/list.json" +:+ "': " +:+
                     exn_msg cause)) \/
   (exists t, read_json sample_fs "decks/list.json" = Ok (JOther t) /\
              Exn AttributeError "'list' object has no attribute 'get'" =
              Exn AttributeError
                ("'" +:+ type_name t +:+
                 "' object has no attribute 'get'"))).
Proof.
  apply (load_deck_failure sample_fs "decks/list.json" sample_rng
           (Exn AttributeError "'list' object has no attribute 'get'")).
  reflexivity.
Defined.

(** X15.  A session made from the cards [load_deck] returned has a first
    card: [has_next] is true, [current] returns a card of the deck file,
    [total] is the number of cards in the file, and score and missed cards
    start empty. *)
Theorem loaded_deck_starts fs path g title deck :
  (load_deck fs path g).1 = Ok (title, deck) ->
  let game := Flashcards.init deck in
  Flashcards.has_next game = true /\
  (exists data c,
     read_json fs path = Ok (JObject data) /\
     Flashcards.current game = Ok c /\
     c ∈ default [] (doc_cards data) /\
     total game = length (default [] (doc_cards data))) /\
  score game = 0 /\ missed_cards game = [].
Proof.
  unfold load_deck.
  destruct (read_json fs path) as [[data|t]|cause]; [|done..].
  case_bool_decide as Hempty; [done|].
  destruct (shuffle _ g) as [deck' g'] eqn:Hsh. simpl. intros [= <- <-].
  assert (deck' ≡ₚ default [] (doc_cards data)) as Hperm.
  { change deck' with (deck', g').1. rewrite <- Hsh.
    apply shuffle_Permutation. }
  destruct deck' as [|c deck'].
  { exfalso. apply Hempty. symmetry. by apply Permutation_nil_l. }
  split_and!; try done.
  exists data, c. split_and!; try done.
  - rewrite <- Hperm. by left.
  - simpl. by rewrite <- Hperm.
Qed.

Lemma loaded_deck_starts_witness :
  let game := Flashcards.init [card_c; card_a; card_b] in
  Flashcards.has_next game = true /\
  (exists data c,
     read_json sample_fs "decks/math.json" = Ok (JObject data) /\
     Flashcards.current game = Ok c /\
     c ∈ default [] (doc_cards data) /\
     total game = length (default [] (doc_cards data))) /\
  score game = 0 /\ missed_cards game = [].
Proof.
  apply (loaded_deck_starts sample_fs "decks/math.json" sample_rng "Math"
           [card_c; card_a; card_b]).
  reflexivity.
Defined.

End LoadingFacts.

(** * The interface *)

Section InterfaceFacts.
Implicit Types (w : World) (a : FlashcardApp) (g : Flashcards) (c : Card).

#[local] Arguments FlashcardApp.score_text : simpl never.
#[local] Arguments FlashcardApp.deck_name : simpl never.
#[local] Arguments Flashcards.has_next : simpl never.
#[local] Arguments Flashcards.current : simpl never.
#[local] Arguments Flashcards.check : simpl never.
#[local] Arguments Flashcards.reset_for_review : simpl never.
#[local] Arguments shuffle : simpl never.
#[local] Arguments find_decks : simpl never.
#[local] Arguments load_deck : simpl never.
#[local] Arguments pretty : simpl never.

Ltac ui_unfold :=
  unfold FlashcardApp.clear_buttons, FlashcardApp.hide_explanation_area,
    FlashcardApp.show_explanation_area,
    FlashcardApp.add_dialog, FlashcardApp.root_quit,
    FlashcardApp.listbox_curselection, FlashcardApp.listbox_selection_set,
    ui_bind, ui_ret, ui_raise, read, update, call_game,
    call_reset_for_review, ui_shuffle, ui_find_decks, ui_load_deck,
    gets, lift.

(** A command that is none of the commands of a list of buttons. *)
Ltac not_listed :=
  let Hin := fresh "Hin" in
  intros Hin;
  repeat (apply elem_of_cons in Hin as [Hin|Hin]; [discriminate Hin|]);
  by apply elem_of_nil in Hin.

Lemma listbox_gone_destroyed a lb :
  listbox_gone
    (set_deck_listbox
       match lb with lb_live _ _ => lb_destroyed | r => r end a).
Proof. intros items selection. by destruct a, lb. Qed.

Lemma ui_for_add_button {A} (l : list A) (text : A -> string)
    (cmd : A -> command) w :
  ui_for l (fun x => FlashcardApp.add_button (text x) (cmd x)) w =
  (Done tt,
   mkWorld (set_buttons
              (buttons (app w) ++ ((fun x => mkButton (text x) (cmd x)) <$> l))
              (app w))
           (rng w) (files w)).
Proof.
  revert w. induction l as [|x l IH]; intros [[] r fs].
  - simpl. unfold ui_ret, set_buttons. simpl. by rewrite app_nil_r.
  - change (ui_for (x :: l) ?f) with (ui_bind (f x) (fun _ => ui_for l f)).
    unfold ui_bind at 1. unfold FlashcardApp.add_button at 1, update at 1.
    rewrite IH. simpl. unfold set_buttons. simpl.
    by rewrite <- app_assoc.
Qed.

Lemma ui_for_listbox_insert (l : list string) items selection w :
  deck_listbox (app w) = lb_live items selection ->
  ui_for l (fun p => FlashcardApp.listbox_insert (FlashcardApp.deck_name p)) w =
  (Done tt,
   mkWorld (set_deck_listbox
              (lb_live (items ++ (FlashcardApp.deck_name <$> l)) selection)
              (app w))
           (rng w) (files w)).
Proof.
  revert items w. induction l as [|x l IH]; intros items [[] r fs] Hlb;
    simpl in Hlb; subst.
  - simpl. unfold ui_ret, set_deck_listbox. simpl. by rewrite app_nil_r.
  - change (ui_for (x :: l) ?f) with (ui_bind (f x) (fun _ => ui_for l f)).
    unfold ui_bind at 1. unfold FlashcardApp.listbox_insert at 1.
    ui_unfold. simpl.
    rewrite (IH (items ++ [FlashcardApp.deck_name x])) by done.
    simpl. unfold set_deck_listbox. simpl. by rewrite <- app_assoc.
Qed.

(** [show_results] puts the results on the screen. *)
Lemma show_results_spec w g :
  game (app w) = Some g ->
  exists a',
    FlashcardApp.show_results w = (Done tt, mkWorld a' (rng w) (files w)) /\
    game a' = Some g /\ decks a' = decks (app w) /\
    dialogs a' = dialogs (app w) /\ quit_called a' = quit_called (app w) /\
    buttons a' = result_buttons g /\ listbox_gone a' /\
    question_label a' =
      "Quiz Complete!" +:+ newline +:+ newline +:+ FlashcardApp.score_text g /\
    explanation_area a' = false.
Proof.
  destruct w as [a r fs]. simpl. intros Hg.
  unfold FlashcardApp.show_results, FlashcardApp.add_button. ui_unfold.
  simpl. rewrite Hg. simpl.
  unfold result_buttons.
  case_bool_decide; simpl; (eexists; split; [reflexivity|]);
    destruct a; simpl in *; split_and!; try done;
    intros ??; by destruct deck_listbox0.
Qed.


Lemma current_has_next g c :
  Flashcards.current g = Ok c -> Flashcards.has_next g = true.
Proof. intros Hc%current_Ok. apply has_next_lookup. by exists c. Qed.

(** [next_question] on a finished session shows the results. *)
Lemma next_question_results w g :
  game (app w) = Some g ->
  Flashcards.has_next g = false ->
  exists a',
    FlashcardApp.next_question w = (Done tt, mkWorld a' (rng w) (files w)) /\
    game a' = Some g /\ decks a' = decks (app w) /\
    dialogs a' = dialogs (app w) /\ quit_called a' = quit_called (app w) /\
    buttons a' = result_buttons g /\ listbox_gone a' /\
    question_label a' =
      "Quiz Complete!" +:+ newline +:+ newline +:+ FlashcardApp.score_text g /\
    explanation_area a' = false.
Proof.
  destruct w as [a r fs]. simpl. intros Hg Hno.
  unfold FlashcardApp.next_question. ui_unfold. simpl. rewrite Hg. simpl.
  rewrite Hno. simpl.
  match goal with
  | |- context [FlashcardApp.show_results ?w'] =>
      destruct (show_results_spec w' g) as (a' & -> & Hspec);
      [by destruct a; simpl in *|]
  end.
  exists a'. split; [done|]. by destruct a.
Qed.

(** [next_question] on a session in progress shows the card, the score and
    a button for each choice, in shuffled order. *)
Lemma next_question_question w g c :
  game (app w) = Some g ->
  Flashcards.current g = Ok c ->
  exists a',
    FlashcardApp.next_question w =
      (Done tt, mkWorld a' (shuffle (choices c) (rng w)).2 (files w)) /\
    game a' = Some g /\ decks a' = decks (app w) /\
    dialogs a' = dialogs (app w) /\ quit_called a' = quit_called (app w) /\
    buttons a' = answer_button <$> (shuffle (choices c) (rng w)).1 /\
    listbox_gone a' /\
    question_label a' = question c /\
    score_label a' = FlashcardApp.score_text g /\
    explanation_area a' = false /\
    title_label a' = title_label (app w).
Proof.
  destruct w as [a r fs]. simpl. intros Hg Hc.
  unfold FlashcardApp.next_question. ui_unfold. simpl. rewrite Hg. simpl.
  rewrite (current_has_next g c Hc). simpl. rewrite Hc. simpl.
  destruct (shuffle (choices c) r) as [shuffled r'] eqn:Hsh. simpl.
  rewrite ui_for_add_button. simpl.
  eexists. split; [reflexivity|].
  destruct a; simpl in *. split_and!; try done.
  intros ??; by destruct deck_listbox0.
Qed.

(** One way or the other [next_question] leaves one of the screens. *)
Lemma next_question_screen w g :
  game (app w) = Some g ->
  score g + length (missed_cards g) <= index g ->
  exists a' r',
    FlashcardApp.next_question w = (Done tt, mkWorld a' r' (files w)) /\
    game a' = Some g /\ decks a' = decks (app w) /\
    dialogs a' = dialogs (app w) /\ quit_called a' = quit_called (app w) /\
    screen a'.
Proof.
  intros Hg Hscore.
  destruct (Flashcards.current g) as [c|e] eqn:Hc.
  - destruct (next_question_question w g c Hg Hc)
      as (a' & Heq & Hg' & Hd & Hdl & Hq & Hb & Hlb & Hql & Hsl & Hex & _).
    exists a', (shuffle (choices c) (rng w)).2. split_and!; try done.
    apply (screen_question a' g c (shuffle (choices c) (rng w)).1);
      try done.
    apply shuffle_Permutation.
  - assert (Flashcards.has_next g = false) as Hno.
    { destruct (Flashcards.has_next g) eqn:Hn; [|done].
      apply has_next_current in Hn as [c Hc']. congruence. }
    destruct (next_question_results w g Hg Hno)
      as (a' & Heq & Hg' & Hd & Hdl & Hq & Hb & Hlb & Hql & Hex).
    exists a', (rng w). split_and!; try done.
    by eapply (screen_results a' g).
Qed.


Lemma check_Ok g c selected :
  Flashcards.current g = Ok c ->
  Flashcards.check selected g =
  (Ok (bool_decide (selected = answer c)),
   if decide (selected = answer c) then set_score (score g + 1) g
   else mark_missed c g).
Proof.
  intros Hc. rewrite check_eq, Hc. unfold mark_missed.
  destruct (decide (selected = answer c)).
  - by rewrite bool_decide_eq_true_2.
  - by rewrite bool_decide_eq_false_2.
Qed.

(** [submit_answer] checks the selection and shows the explanation. *)
Lemma submit_answer_spec w g c selected :
  game (app w) = Some g ->
  Flashcards.current g = Ok c ->
  exists a',
    FlashcardApp.submit_answer selected w =
      (Done tt, mkWorld a' (rng w) (files w)) /\
    game a' = Some (Flashcards.check selected g).2 /\
    decks a' = decks (app w) /\
    dialogs a' = dialogs (app w) /\ quit_called a' = quit_called (app w) /\
    question_label a' = question_label (app w) /\
    score_label a' = score_label (app w) /\
    buttons a' = [mkButton "Next" cmd_advance] /\
    listbox_gone a' /\
    explanation_area a' = true /\
    selected_answer a' = selected /\
    last_correct a' = bool_decide (selected = answer c) /\
    feedback_label a' = (if last_correct a' then "Correct!" else "Incorrect") /\
    feedback_fg a' = (if last_correct a' then "green" else "red") /\
    answer_info_label a' =
      (if last_correct a' then "Your answer: " +:+ selected
       else "Your answer: " +:+ selected +:+ newline +:+
            "Correct answer: " +:+ answer c) /\
    explanation_label a' =
      default "No explanation provided." (explanation c).
Proof.
  destruct w as [a r fs]. simpl. intros Hg Hc.
  pose proof (check_current selected g) as Hc'. rewrite Hc in Hc'.
  unfold FlashcardApp.submit_answer, FlashcardApp.show_explanation,
    FlashcardApp.add_button.
  ui_unfold. simpl. rewrite Hg.
  rewrite (check_Ok g c selected Hc) in *. simpl in *.
  rewrite Hc'. simpl.
  destruct (bool_decide (selected = answer c)) eqn:Hb; simpl;
    (eexists; split; [reflexivity|]);
    destruct a; simpl in *; split_and!; try done;
    intros ??; by destruct deck_listbox0.
Qed.

(** [advance] moves to the next card and shows what [next_question]
    shows. *)
Lemma advance_eq w g :
  game (app w) = Some g ->
  FlashcardApp.advance w =
  FlashcardApp.next_question
    (mkWorld (set_game (Some (Flashcards.next g).2) (app w)) (rng w) (files w)).
Proof.
  destruct w as [a r fs]. simpl. intros Hg.
  unfold FlashcardApp.advance. unfold ui_bind at 1, call_game.
  simpl. by rewrite Hg.
Qed.

Lemma redo_wrong_eq w g :
  game (app w) = Some g ->
  FlashcardApp.redo_wrong w =
  FlashcardApp.next_question
    (mkWorld (set_game (Some (Flashcards.reset_for_review (rng w) g).1) (app w))
             (Flashcards.reset_for_review (rng w) g).2 (files w)).
Proof.
  destruct w as [a r fs]. simpl. intros Hg.
  unfold FlashcardApp.redo_wrong. unfold ui_bind at 1, call_reset_for_review.
  simpl. rewrite Hg. by destruct (Flashcards.reset_for_review r g).
Qed.


Lemma load_deck_Raise fs path r e :
  (load_deck fs path r).1 = Raise e -> load_deck fs path r = (Raise e, r).
Proof.
  unfold load_deck. destruct (read_json fs path) as [[data|t]|]; simpl.
  - case_bool_decide; [by intros [= <-]|]. by destruct (shuffle _ r).
  - by intros [= <-].
  - by intros [= <-].
Qed.

(** [start_game] with nothing selected only warns. *)
Lemma start_game_no_selection w items :
  deck_listbox (app w) = lb_live items None ->
  FlashcardApp.start_game w =
  (Done tt,
   mkWorld (set_dialogs
              (dialogs (app w) ++
               [showwarning "Select Deck" "Please select a deck."]) (app w))
           (rng w) (files w)).
Proof.
  destruct w as [a r fs]. simpl. intros Hlb.
  unfold FlashcardApp.start_game. ui_unfold. simpl. by rewrite Hlb.
Qed.

(** [start_game] when the selected deck does not load: the exception of
    [load_deck] comes out and nothing has changed. *)
Lemma start_game_load_fails w items i path e :
  deck_listbox (app w) = lb_live items (Some i) ->
  decks (app w) !! i = Some path ->
  (load_deck (files w) path (rng w)).1 = Raise e ->
  FlashcardApp.start_game w = (Failed (Exc e), w).
Proof.
  destruct w as [a r fs]. simpl. intros Hlb Hpath Hload.
  unfold FlashcardApp.start_game. ui_unfold. simpl. rewrite Hlb. simpl.
  rewrite Hpath. simpl. by rewrite (load_deck_Raise _ _ _ e Hload).
Qed.

(** [start_game] when the selected deck loads: a fresh session over its
    cards, its title on top, and the first question. *)
Lemma start_game_loads w items i path title deck r' :
  deck_listbox (app w) = lb_live items (Some i) ->
  decks (app w) !! i = Some path ->
  load_deck (files w) path (rng w) = (Ok (title, deck), r') ->
  FlashcardApp.start_game w =
  FlashcardApp.next_question
    (mkWorld (set_title_label title
                (set_game (Some (Flashcards.init deck)) (app w)))
             r' (files w)).
Proof.
  destruct w as [a r fs]. simpl. intros Hlb Hpath Hload.
  unfold FlashcardApp.start_game. ui_unfold. simpl. rewrite Hlb. simpl.
  rewrite Hpath. simpl. by rewrite Hload.
Qed.

(** [show_deck_selector] when the directory cannot be listed: the
    exception comes out, after the screen was cleared. *)
Lemma show_deck_selector_fails w e :
  find_decks (files w) "decks" = Raise e ->
  exists a',
    FlashcardApp.show_deck_selector w =
      (Failed (Exc e), mkWorld a' (rng w) (files w)) /\
    game a' = game (app w) /\ buttons a' = [] /\ listbox_gone a' /\
    decks a' = decks (app w).
Proof.
  destruct w as [a r fs]. simpl. intros Hfind.
  unfold FlashcardApp.show_deck_selector. ui_unfold. simpl. rewrite Hfind.
  eexists. split; [reflexivity|].
  destruct a; simpl. split_and!; try done.
  intros ??; by destruct deck_listbox0.
Qed.

(** [show_deck_selector] when there is no deck: an error box, [quit], and
    nothing to press. *)
Lemma show_deck_selector_empty w :
  find_decks (files w) "decks" = Ok [] ->
  exists a',
    FlashcardApp.show_deck_selector w =
      (Done tt, mkWorld a' (rng w) (files w)) /\
    game a' = game (app w) /\ decks a' = [] /\
    buttons a' = [] /\ listbox_gone a' /\
    dialogs a' =
      dialogs (app w) ++
      [showerror "Error" "No JSON decks found in the 'decks' folder."] /\
    quit_called a' = true.
Proof.
  destruct w as [a r fs]. simpl. intros Hfind.
  unfold FlashcardApp.show_deck_selector. ui_unfold. simpl. rewrite Hfind.
  simpl. eexists. split; [reflexivity|].
  destruct a; simpl. split_and!; try done.
  intros ??; by destruct deck_listbox0.
Qed.

(** [show_deck_selector] when there are decks: their names in the list,
    the first one selected, and the Start button. *)
Lemma show_deck_selector_decks w found :
  find_decks (files w) "decks" = Ok found ->
  found ≠ [] ->
  exists a',
    FlashcardApp.show_deck_selector w =
      (Done tt, mkWorld a' (rng w) (files w)) /\
    game a' = game (app w) /\ decks a' = found /\
    dialogs a' = dialogs (app w) /\ quit_called a' = quit_called (app w) /\
    deck_listbox a' = lb_live (FlashcardApp.deck_name <$> found) (Some 0) /\
    buttons a' = [mkButton "Start" cmd_start_game] /\
    title_label a' = "Select a Deck" /\
    question_label a' = "" /\ score_label a' = "" /\
    explanation_area a' = false.
Proof.
  destruct w as [a r fs]. simpl. intros Hfind Hne.
  unfold FlashcardApp.show_deck_selector, FlashcardApp.add_button.
  ui_unfold. simpl. rewrite Hfind. simpl.
  rewrite bool_decide_eq_false_2 by done. simpl.
  erewrite ui_for_listbox_insert by (by destruct a). simpl.
  assert ((0 <? length (FlashcardApp.deck_name <$> found)) = true) as ->.
  { apply Nat.ltb_lt. rewrite length_fmap. destruct found; [done|simpl; lia]. }
  eexists. split; [reflexivity|].
  destruct a; simpl. split_and!; done.
Qed.


(** *** The screens are kept *)

Lemma screen_ext a a' :
  game a' = game a -> decks a' = decks a ->
  last_correct a' = last_correct a -> selected_answer a' = selected_answer a ->
  title_label a' = title_label a -> question_label a' = question_label a ->
  feedback_label a' = feedback_label a -> feedback_fg a' = feedback_fg a ->
  answer_info_label a' = answer_info_label a ->
  explanation_label a' = explanation_label a ->
  explanation_area a' = explanation_area a -> buttons a' = buttons a ->
  deck_listbox a' = deck_listbox a -> score_label a' = score_label a ->
  screen a -> screen a'.
Proof.
  intros E1 E2 E3 E4 E5 E6 E7 E8 E9 E10 E11 E12 E13 E14 Hs.
  assert (listbox_gone a -> listbox_gone a') as Hgone.
  { intros H ??. rewrite E13. apply H. }
  destruct Hs as [Hb Hlb|sel Hd Hlb Hsel Hb Ht He|g c sh H1 H2 H3 H4 Hlb H6 H7 H8 H9
                 |g c H1 H2 H3 Hlb H5 H6 H7 H8 H9 H10 H11 H12
                 |g H1 H2 H3 Hlb H5 H6 H7].
  - apply screen_blank; [congruence|auto].
  - apply (screen_selector a' sel); rewrite ?E2;
      first [congruence|assumption].
  - apply (screen_question a' g c sh); first [congruence|auto].
  - apply (screen_explanation a' g c); rewrite ?E3, ?E4;
      first [congruence|auto].
  - apply (screen_results a' g); first [congruence|auto].
Qed.

Lemma ui_inv_ext a r fs a' r' fs' :
  game a' = game a -> (screen a -> screen a') ->
  ui_inv (mkWorld a r fs) -> ui_inv (mkWorld a' r' fs').
Proof.
  intros Hg Hs [Hscreen Hgame]. split; simpl in *; [auto|].
  intros g. rewrite Hg. apply Hgame.
Qed.

Lemma screen_live_selector a items selection :
  screen a -> deck_listbox a = lb_live items selection ->
  decks a ≠ [] /\ items = FlashcardApp.deck_name <$> decks a /\
  (forall i, selection = Some i -> i < length (decks a)) /\
  buttons a = [mkButton "Start" cmd_start_game] /\
  title_label a = "Select a Deck" /\ explanation_area a = false.
Proof.
  intros [Hb Hgone|sel Hd Hlb Hsel Hb Ht He|g c sh ???? Hgone ????
         |g c ??? Hgone ????????|g ??? Hgone ???] Hlive;
    try (exfalso; by eapply Hgone).
  rewrite Hlb in Hlive. simplify_eq. done.
Qed.


(** *** Which screen offers which command *)

Lemma offered_start_game a :
  screen a -> offered cmd_start_game a ->
  exists selection,
    deck_listbox a = lb_live (FlashcardApp.deck_name <$> decks a) selection.
Proof.
  unfold offered.
  intros [Hb _|sel _ Hlb _ Hb _ _|g c sh _ _ _ Hb _ _ _ _ _
         |g c _ _ Hb _ _ _ _ _ _ _ _ _|g _ _ Hb _ _ _ _]; rewrite Hb.
  - by intros ?%elem_of_nil.
  - by exists sel.
  - rewrite <- list_fmap_compose.
    by intros (ch & ? & _)%list_elem_of_fmap.
  - by intros [=]%list_elem_of_singleton.
  - unfold result_buttons. case_bool_decide; simpl; not_listed.
Qed.

Lemma offered_submit_answer a choice :
  screen a -> offered (cmd_submit_answer choice) a ->
  exists g c shuffled,
    game a = Some g /\ Flashcards.current g = Ok c /\
    shuffled ≡ₚ choices c /\ choice ∈ shuffled /\
    buttons a = answer_button <$> shuffled /\
    listbox_gone a /\ question_label a = question c /\
    score_label a = FlashcardApp.score_text g /\
    explanation_area a = false /\
    score g + length (missed_cards g) <= index g.
Proof.
  unfold offered.
  intros [Hb _|sel _ _ _ Hb _ _|g c sh H1 H2 H3 Hb H5 H6 H7 H8 H9
         |g c _ _ Hb _ _ _ _ _ _ _ _ _|g _ _ Hb _ _ _ _]; rewrite Hb.
  - by intros ?%elem_of_nil.
  - by intros [=]%list_elem_of_singleton.
  - rewrite <- list_fmap_compose.
    intros (ch & [= ->] & Hch)%list_elem_of_fmap.
    exists g, c, sh. done.
  - by intros [=]%list_elem_of_singleton.
  - unfold result_buttons. case_bool_decide; simpl; not_listed.
Qed.

Lemma offered_advance a :
  screen a -> offered cmd_advance a ->
  exists g c,
    game a = Some g /\ Flashcards.current g = Ok c /\
    buttons a = [mkButton "Next" cmd_advance] /\
    listbox_gone a /\ explanation_area a = true /\
    last_correct a = bool_decide (selected_answer a = answer c) /\
    feedback_label a = (if last_correct a then "Correct!" else "Incorrect") /\
    feedback_fg a = (if last_correct a then "green" else "red") /\
    answer_info_label a =
      (if last_correct a then "Your answer: " +:+ selected_answer a
       else "Your answer: " +:+ selected_answer a +:+ newline +:+
            "Correct answer: " +:+ answer c) /\
    explanation_label a =
      default "No explanation provided." (explanation c) /\
    (last_correct a = false -> c ∈ missed_cards g) /\
    score g + length (missed_cards g) <= index g + 1.
Proof.
  unfold offered.
  intros [Hb _|sel _ _ _ Hb _ _|g c sh _ _ _ Hb _ _ _ _ _
         |g c H1 H2 Hb H4 H5 H6 H7 H8 H9 H10 H11 H12|g _ _ Hb _ _ _ _];
    rewrite Hb.
  - by intros ?%elem_of_nil.
  - by intros [=]%list_elem_of_singleton.
  - rewrite <- list_fmap_compose.
    by intros (ch & ? & _)%list_elem_of_fmap.
  - intros _. exists g, c. done.
  - unfold result_buttons. case_bool_decide; simpl; not_listed.
Qed.

Lemma offered_results a cmd :
  cmd = cmd_redo_wrong \/ cmd = cmd_show_deck_selector \/ cmd = cmd_quit ->
  screen a -> offered cmd a ->
  exists g,
    game a = Some g /\ Flashcards.has_next g = false /\
    buttons a = result_buttons g /\ listbox_gone a /\
    question_label a =
      "Quiz Complete!" +:+ newline +:+ newline +:+ FlashcardApp.score_text g /\
    explanation_area a = false /\
    score g + length (missed_cards g) <= index g /\
    (cmd = cmd_redo_wrong -> missed_cards g ≠ []).
Proof.
  unfold offered.
  intros Hcmd
         [Hb _|sel _ _ _ Hb _ _|g c sh _ _ _ Hb _ _ _ _ _
         |g c _ _ Hb _ _ _ _ _ _ _ _ _|g H1 H2 Hb H4 H5 H6 H7]; rewrite Hb.
  - by intros ?%elem_of_nil.
  - intros ->%list_elem_of_singleton. by destruct Hcmd as [?|[?|?]].
  - rewrite <- list_fmap_compose.
    intros (ch & -> & _)%list_elem_of_fmap. by destruct Hcmd as [?|[?|?]].
  - intros ->%list_elem_of_singleton. by destruct Hcmd as [?|[?|?]].
  - intros Hin. exists g. split_and!; try done.
    intros ->. revert Hin. unfold result_buttons.
    case_bool_decide; [|done]. simpl. not_listed.
Qed.


(** *** Every callback keeps the invariant *)

Lemma load_deck_Raise_class fs path r e :
  (load_deck fs path r).1 = Raise e ->
  exn_cls e = RuntimeError \/
  exn_cls e = AttributeError /\ exists t, read_json fs path = Ok (JOther t).
Proof.
  unfold load_deck. destruct (read_json fs path) as [[data|t]|]; simpl.
  - case_bool_decide; [intros [= <-]; by left|]. by destruct (shuffle _ r).
  - intros [= <-]. right. split; [done|]. by exists t.
  - intros [= <-]. by left.
Qed.

Lemma load_deck_Ok_nonempty fs path r title deck r' :
  load_deck fs path r = (Ok (title, deck), r') -> deck ≠ [].
Proof.
  unfold load_deck. destruct (read_json fs path) as [[data|t]|]; [|done..].
  case_bool_decide as Hne; [done|].
  destruct (shuffle _ r) as [deck' r''] eqn:Hsh. intros [= _ <- _] ->.
  apply Hne, (shuffle_nil_inv _ r). by rewrite Hsh.
Qed.

Lemma find_decks_Raise fs directory e :
  find_decks fs directory = Raise e ->
  isdir fs directory = true /\ listdir fs directory = Raise e.
Proof.
  unfold find_decks. destruct (isdir fs directory); [|done]. simpl.
  destruct (listdir fs directory); [done|]. by intros [= ->].
Qed.

Lemma show_deck_selector_inv w :
  (forall g, game (app w) = Some g ->
     reachable g /\ index g <= total g /\
     score g + length (missed_cards g) <= total g) ->
  ui_inv (FlashcardApp.show_deck_selector w).2 /\
  expected_outcome w (FlashcardApp.show_deck_selector w) /\
  files (FlashcardApp.show_deck_selector w).2 = files w.
Proof.
  intros Hgame.
  destruct (find_decks (files w) "decks") as [found|e] eqn:Hfind.
  - destruct (decide (found = [])) as [->|Hne].
    + destruct (show_deck_selector_empty w Hfind)
        as (a' & -> & Hg & _ & Hb & Hlb & _).
      split_and!; [|by left|done].
      split; simpl; [by apply screen_blank|]. by rewrite Hg.
    + destruct (show_deck_selector_decks w found Hfind Hne)
        as (a' & -> & Hg & Hd & _ & _ & Hlb & Hb & Ht & _ & _ & He).
      split_and!; [|by left|done].
      split; simpl; [|by rewrite Hg].
      apply (screen_selector a' (Some 0)); rewrite ?Hd; try done.
      intros i [= <-]. destruct found; [done|simpl; lia].
  - destruct (show_deck_selector_fails w e Hfind)
      as (a' & -> & Hg & Hb & Hlb & _).
    split_and!; [| |done].
    + split; simpl; [by apply screen_blank|]. by rewrite Hg.
    + right. exists e. split; [done|]. right. by apply find_decks_Raise.
Qed.

Lemma start_game_inv w :
  ui_inv w ->
  (exists items selection, deck_listbox (app w) = lb_live items selection) ->
  ui_inv (FlashcardApp.start_game w).2 /\
  expected_outcome w (FlashcardApp.start_game w) /\
  files (FlashcardApp.start_game w).2 = files w.
Proof.
  intros [Hscreen Hgame] (items & selection & Hlb).
  destruct (screen_live_selector _ _ _ Hscreen Hlb)
    as (Hdecks & -> & Hsel & Hb & Ht & He).
  destruct selection as [i|].
  - destruct (lookup_lt_is_Some_2 (decks (app w)) i) as [path Hpath];
      [by apply Hsel|].
    destruct (load_deck (files w) path (rng w)) as [[[title deck]|e] r']
      eqn:Hload.
    + rewrite (start_game_loads w _ i path title deck r') by done.
      set (w1 := mkWorld _ r' (files w)).
      destruct (next_question_screen w1 (Flashcards.init deck))
        as (a' & r2 & -> & Hg & _ & _ & _ & Hs);
        [by destruct w as [[] ? ?]|simpl; lia|].
      split_and!; [|by left|done].
      split; simpl; [done|]. rewrite Hg. intros g [= <-].
      split_and!; [apply reach_init|simpl; lia..].
    + rewrite (start_game_load_fails w _ i path e) by (by rewrite ?Hload).
      split_and!; [done| |done].
      right. exists e. split; [done|]. left. exists path.
      split_and!; [by eapply list_elem_of_lookup_2|by rewrite Hload| |done].
      apply (load_deck_Raise_class (files w) path (rng w)). by rewrite Hload.
  - rewrite (start_game_no_selection w _ Hlb).
    split_and!; [|by left|done].
    destruct w as [a r fs]. apply (ui_inv_ext a r fs); [by destruct a| |done].
    apply screen_ext; by destruct a.
Qed.

Lemma run_command_inv cmd w :
  ui_inv w -> offered cmd (app w) ->
  ui_inv (run_command cmd w).2 /\
  expected_outcome w (run_command cmd w) /\
  files (run_command cmd w).2 = files w.
Proof.
  intros Hinv Hoff. pose proof Hinv as [Hscreen Hgame].
  destruct cmd as [|choice| | | |]; simpl.
  - apply start_game_inv; [done|].
    destruct (offered_start_game _ Hscreen Hoff) as [sel Hlb]. eauto.
  - destruct (offered_submit_answer _ _ Hscreen Hoff)
      as (g & c & sh & Hg & Hc & _ & _ & _ & _ & _ & _ & _ & Hbound).
    destruct (Hgame g Hg) as (Hreach & Hidx & _).
    assert (index g < total g) as Hlt.
    { rewrite (reachable_total_is_len g Hreach).
      by apply Nat.ltb_lt, (current_has_next g c). }
    destruct (submit_answer_spec w g c choice Hg Hc)
      as (a' & -> & Hg' & _ & _ & _ & _ & _ & Hb & Hlb & He & Hsel & Hlast
          & Hfb & Hfg & Hai & Hel).
    split_and!; [|by left|done].
    assert (score (Flashcards.check choice g).2 +
              length (missed_cards (Flashcards.check choice g).2)
            <= index g + 1 /\
            (bool_decide (choice = answer c) = false ->
             c ∈ missed_cards (Flashcards.check choice g).2)) as [Hb' Hin].
    { rewrite (check_Ok g c choice Hc). simpl.
      destruct (decide (choice = answer c)) as [Heq|Hne]; simpl.
      - rewrite bool_decide_eq_true_2 by done. split; [lia|done].
      - split; [|intros _; apply mark_missed_elem].
        unfold mark_missed.
        destruct (decide (c ∈ missed_cards g)); simpl; [lia|].
        rewrite length_app. simpl. lia. }
    split; simpl.
    + apply (screen_explanation a' (Flashcards.check choice g).2 c);
        rewrite ?Hsel, ?check_index; try done.
      * by rewrite check_current.
      * by rewrite Hlast.
    + rewrite Hg'. intros g' [= <-]. split; [by apply reach_check|].
      rewrite check_index, check_total. lia.
  - destruct (offered_advance _ Hscreen Hoff)
      as (g & c & Hg & Hc & _ & _ & _ & _ & _ & _ & _ & _ & _ & Hbound).
    destruct (Hgame g Hg) as (Hreach & Hidx & _).
    rewrite (advance_eq w g Hg).
    set (w1 := mkWorld _ (rng w) (files w)).
    destruct (next_question_screen w1 (Flashcards.next g).2)
      as (a' & r2 & -> & Hg' & _ & _ & _ & Hs);
      [by destruct w as [[] ? ?]|simpl; lia|].
    split_and!; [|by left|done].
    split; simpl; [done|]. rewrite Hg'. intros g' [= <-].
    split; [by apply reach_next|]. simpl.
    apply current_has_next, Nat.ltb_lt in Hc.
    rewrite (reachable_total_is_len g Hreach). lia.
  - destruct (offered_results _ cmd_redo_wrong (or_introl eq_refl)
                Hscreen Hoff) as (g & Hg & _).
    destruct (Hgame g Hg) as (Hreach & Hidx & _).
    rewrite (redo_wrong_eq w g Hg).
    set (g2 := (Flashcards.reset_for_review (rng w) g).1).
    set (w1 := mkWorld _ _ (files w)).
    assert (score g2 = 0 /\ index g2 = 0 /\ missed_cards g2 = [])
      as (Hs2 & Hi2 & Hm2) by (unfold g2; by rewrite reset_for_review_eq).
    destruct (next_question_screen w1 g2)
      as (a' & r2 & -> & Hg' & _ & _ & _ & Hs);
      [by destruct w as [[] ? ?]|rewrite Hs2, Hi2, Hm2; simpl; lia|].
    split_and!; [|by left|done].
    split; simpl; [done|]. rewrite Hg'. intros g' [= <-].
    split; [by apply reach_reset|].
    fold g2. rewrite Hs2, Hi2, Hm2. simpl. lia.
  - by apply show_deck_selector_inv.
  - split_and!; [|by left|done].
    destruct w as [a r fs]. apply (ui_inv_ext a r fs); [by destruct a| |done].
    apply screen_ext; by destruct a.
Qed.


Lemma buttons_offered a i b :
  buttons a !! i = Some b -> offered (btn_command b) a.
Proof.
  intros Hb. apply list_elem_of_fmap. exists b. split; [done|].
  by eapply list_elem_of_lookup_2.
Qed.

Lemma handle_inv ev w :
  ui_inv w -> ui_inv (handle ev w).2 /\ expected_outcome w (handle ev w).
Proof.
  intros Hinv. pose proof Hinv as [Hscreen Hgame].
  destruct ev as [i|i| | |fs']; simpl.
  - unfold ui_bind, read.
    destruct (buttons (app w) !! i) as [b|] eqn:Hb; [|by split; [|left]].
    destruct (run_command_inv (btn_command b) w Hinv) as (? & ? & _);
      [by eapply buttons_offered|done].
  - unfold update. simpl. split; [|by left].
    destruct w as [a r fs]; simpl in *.
    destruct (deck_listbox a) as [|items selection|] eqn:Hlb; try done.
    destruct (screen_live_selector _ _ _ Hscreen Hlb)
      as (Hd & -> & Hsel & Hb & Ht & He).
    split; [|by destruct a].
    destruct a; simpl in *.
    apply (screen_selector _
             (if i <? length (FlashcardApp.deck_name <$> decks0)
              then Some i else selection)); simpl; try done.
    intros j Hj. destruct (i <? _) eqn:Hi; [|by apply Hsel].
    apply Nat.ltb_lt in Hi. rewrite length_fmap in Hi. by simplify_eq.
  - unfold update. simpl. split; [|by left].
    destruct w as [a r fs]; simpl in *.
    destruct (deck_listbox a) as [|items selection|] eqn:Hlb; try done.
    destruct (screen_live_selector _ _ _ Hscreen Hlb)
      as (Hd & -> & Hsel & Hb & Ht & He).
    split; [|by destruct a].
    destruct a; simpl in *.
    by apply (screen_selector _ None).
  - unfold ui_bind, read.
    destruct (deck_listbox (app w)) as [|items selection|] eqn:Hlb;
      try (by split; [|left]).
    destruct (start_game_inv w Hinv) as (? & ? & _); [eauto|done].
  - split; [|by left]. by destruct w.
Qed.

Lemma init_inv fs r : ui_inv (FlashcardApp.init fs r).2.
Proof. by apply show_deck_selector_inv. Qed.

Lemma ui_reachable_inv w : ui_reachable w -> ui_inv w.
Proof.
  induction 1 as [fs r _|ev w _ IH]; [apply init_inv|].
  by apply handle_inv.
Qed.


Lemma run_events_reachable events w :
  ui_reachable w -> ui_reachable (run_events events w).
Proof.
  revert w. induction events as [|ev events IH]; intros w Hw; [done|].
  apply IH. by apply ui_handled.
Qed.

Lemma sample_selector_reachable : ui_reachable sample_selector.
Proof. apply ui_started. vm_compute. reflexivity. Qed.

Lemma sample_question_reachable : ui_reachable sample_question.
Proof. apply run_events_reachable, sample_selector_reachable. Qed.

Lemma sample_explanation_reachable : ui_reachable sample_explanation.
Proof. apply run_events_reachable, sample_question_reachable. Qed.

Lemma sample_results_reachable : ui_reachable sample_results.
Proof. apply run_events_reachable, sample_explanation_reachable. Qed.

(** ** What the running application does and never does *)

(** X16.  For deck files that cannot be read or parsed, that hold an object
    of the deck file format (every card a record with its question, choices
    and answer), or that hold no object at all: whatever the user does, a
    callback of the running application either returns; or fails with what
    [load_deck] raised on one of the listed decks, a [RuntimeError] or, for
    a file that holds no object, an [AttributeError], and has changed
    nothing; or fails with what [os.listdir] raised in [find_decks].  So,
    for such files, the session is never asked for a card it does not have
    ([IndexError]), [game] is never used while it is [None], and no
    destroyed widget is used. *)
Theorem callback_outcomes (w : World) (ev : event) :
  ui_reachable w ->
  (handle ev w).1 = Done tt \/
  exists e,
    (handle ev w).1 = Failed (Exc e) /\
    ((exists path,
        path ∈ decks (app w) /\
        (load_deck (files w) path (rng w)).1 = Raise e /\
        (exn_cls e = RuntimeError \/
         exn_cls e = AttributeError /\
         exists t, read_json (files w) path = Ok (JOther t)) /\
        (handle ev w).2 = w) \/
     (isdir (files w) "decks" = true /\
      listdir (files w) "decks" = Raise e)).
Proof.
  intros Hw%ui_reachable_inv. by destruct (handle_inv ev w Hw) as [_ ?].
Qed.

Lemma callback_outcomes_witness :
  (handle (Press 0) sample_selector).1 = Done tt \/
  exists e,
    (handle (Press 0) sample_selector).1 = Failed (Exc e) /\
    ((exists path,
        path ∈ decks (app sample_selector) /\
        (load_deck (files sample_selector) path (rng sample_selector)).1 =
          Raise e /\
        (exn_cls e = RuntimeError \/
         exn_cls e = AttributeError /\
         exists t, read_json (files sample_selector) path = Ok (JOther t)) /\
        (handle (Press 0) sample_selector).2 = sample_selector) \/
     (isdir (files sample_selector) "decks" = true /\
      listdir (files sample_selector) "decks" = Raise e)).
Proof.
  apply (callback_outcomes sample_selector (Press 0)).
  apply sample_selector_reachable.
Defined.

(** X17.  The session the application drives is always a proper session
    state, with the index within [total], and right answers and missed
    cards together never more than [total]: the score shown cannot exceed
    the number of cards. *)
Theorem shown_score_within_total (w : World) (g : Flashcards) :
  ui_reachable w ->
  game (app w) = Some g ->
  reachable g /\
  index g <= total g /\
  score g + length (missed_cards g) <= total g.
Proof.
  intros [_ Hgame]%ui_reachable_inv Hg. by apply Hgame.
Qed.

Lemma shown_score_within_total_witness :
  exists g,
    game (app sample_results) = Some g /\
    reachable g /\
    index g <= total g /\
    score g + length (missed_cards g) <= total g.
Proof.
  eexists. split; [vm_compute; reflexivity|].
  apply (shown_score_within_total sample_results).
  - apply sample_results_reachable.
  - vm_compute. reflexivity.
Defined.

(** X18.  While answers can be given, the question label shows the card at
    the index, the score label shows score and total, and the buttons are
    the choices of that card, each once, in some order, each submitting
    its own text. *)
Theorem question_screen_shows_card (w : World) (choice : string) :
  ui_reachable w ->
  offered (cmd_submit_answer choice) (app w) ->
  exists g c,
    game (app w) = Some g /\
    Flashcards.current g = Ok c /\
    question_label (app w) = question c /\
    score_label (app w) =
      "Score: " +:+ pretty (score g) +:+ "/" +:+ pretty (total g) /\
    btn_text <$> buttons (app w) ≡ₚ choices c /\
    Forall (fun b => btn_command b = cmd_submit_answer (btn_text b))
           (buttons (app w)) /\
    explanation_area (app w) = false.
Proof.
  intros [Hscreen _]%ui_reachable_inv Hoff.
  destruct (offered_submit_answer _ _ Hscreen Hoff)
    as (g & c & sh & Hg & Hc & Hperm & _ & Hb & _ & Hq & Hs & He & _).
  exists g, c. split_and!; try done.
  - rewrite Hb, <- list_fmap_compose, <- Hperm.
    assert ((btn_text ∘ answer_button) <$> sh = sh) as ->; [|done].
    clear. induction sh as [|x sh IH]; [done|]. by rewrite fmap_cons, IH.
  - rewrite Hb. apply Forall_fmap, Forall_true. done.
Qed.

Lemma question_screen_shows_card_witness :
  exists g c,
    game (app sample_question) = Some g /\
    Flashcards.current g = Ok c /\
    question_label (app sample_question) = question c /\
    score_label (app sample_question) =
      "Score: " +:+ pretty (score g) +:+ "/" +:+ pretty (total g) /\
    btn_text <$> buttons (app sample_question) ≡ₚ choices c /\
    Forall (fun b => btn_command b = cmd_submit_answer (btn_text b))
           (buttons (app sample_question)) /\
    explanation_area (app sample_question) = false.
Proof.
  apply (question_screen_shows_card sample_question "Mars").
  - apply sample_question_reachable.
  - vm_compute. constructor.
Defined.


(** X19.  While the Next button is there, it is the only button (no answer
    can be given twice), and what is shown is true of the card at the
    index: ["Correct!"] exactly for its stored answer; for another answer
    ["Incorrect"], the stored answer beside the given one, and the card is
    among the missed cards; the explanation is the card's, or the stock
    sentence when it has none. *)
Theorem explanation_screen_tells_truth (w : World) :
  ui_reachable w ->
  offered cmd_advance (app w) ->
  exists g c,
    game (app w) = Some g /\
    Flashcards.current g = Ok c /\
    buttons (app w) = [mkButton "Next" cmd_advance] /\
    explanation_area (app w) = true /\
    explanation_label (app w) =
      match explanation c with
      | Some text => text
      | None => "No explanation provided."
      end /\
    (selected_answer (app w) = answer c ->
     feedback_label (app w) = "Correct!" /\
     answer_info_label (app w) =
       "Your answer: " +:+ selected_answer (app w)) /\
    (selected_answer (app w) ≠ answer c ->
     feedback_label (app w) = "Incorrect" /\
     answer_info_label (app w) =
       "Your answer: " +:+ selected_answer (app w) +:+ newline +:+
       "Correct answer: " +:+ answer c /\
     c ∈ missed_cards g).
Proof.
  intros [Hscreen _]%ui_reachable_inv Hoff.
  destruct (offered_advance _ Hscreen Hoff)
    as (g & c & Hg & Hc & Hb & _ & He & Hlast & Hfb & _ & Hai & Hel & Hin & _).
  exists g, c. split_and!; try done.
  - intros Heq. rewrite Hfb, Hai, Hlast.
    by rewrite bool_decide_eq_true_2.
  - intros Hne. rewrite Hfb, Hai, Hlast.
    rewrite bool_decide_eq_false_2 by done. split_and!; try done.
    apply Hin. rewrite Hlast. by apply bool_decide_eq_false_2.
Qed.

Lemma explanation_screen_tells_truth_witness :
  exists g c,
    game (app sample_explanation) = Some g /\
    Flashcards.current g = Ok c /\
    buttons (app sample_explanation) = [mkButton "Next" cmd_advance] /\
    explanation_area (app sample_explanation) = true /\
    explanation_label (app sample_explanation) =
      match explanation c with
      | Some text => text
      | None => "No explanation provided."
      end /\
    (selected_answer (app sample_explanation) = answer c ->
     feedback_label (app sample_explanation) = "Correct!" /\
     answer_info_label (app sample_explanation) =
       "Your answer: " +:+ selected_answer (app sample_explanation)) /\
    (selected_answer (app sample_explanation) ≠ answer c ->
     feedback_label (app sample_explanation) = "Incorrect" /\
     answer_info_label (app sample_explanation) =
       "Your answer: " +:+ selected_answer (app sample_explanation) +:+
       newline +:+ "Correct answer: " +:+ answer c /\
     c ∈ missed_cards g).
Proof.
  apply (explanation_screen_tells_truth sample_explanation).
  - apply sample_explanation_reachable.
  - vm_compute. constructor.
Defined.

(** X20.  On the results screen the session is complete
    ([index = total]), the final score is shown, Restart Deck is offered,
    and Redo Wrong Answers is offered exactly when some card was missed. *)
Theorem results_offer_redo_iff_missed (w : World) :
  ui_reachable w ->
  offered cmd_quit (app w) ->
  exists g,
    game (app w) = Some g /\
    Flashcards.has_next g = false /\
    index g = total g /\
    question_label (app w) =
      "Quiz Complete!" +:+ newline +:+ newline +:+
      "Score: " +:+ pretty (score g) +:+ "/" +:+ pretty (total g) /\
    (offered cmd_redo_wrong (app w) <-> missed_cards g ≠ []) /\
    offered cmd_show_deck_selector (app w).
Proof.
  intros Hw Hoff. pose proof (ui_reachable_inv w Hw) as [Hscreen Hgame].
  destruct (offered_results _ cmd_quit (or_intror (or_intror eq_refl))
              Hscreen Hoff) as (g & Hg & Hno & Hb & _ & Hq & _ & _ & _).
  destruct (Hgame g Hg) as (Hreach & Hidx & _).
  exists g. split_and!; try done.
  - unfold Flashcards.has_next in Hno. apply Nat.ltb_ge in Hno.
    rewrite (reachable_total_is_len g Hreach) in *. lia.
  - unfold offered. rewrite Hb. unfold result_buttons.
    case_bool_decide as Hm; simpl.
    + split; [not_listed|done].
    + split; [done|]. intros _. constructor.
  - unfold offered. rewrite Hb. unfold result_buttons.
    case_bool_decide; simpl; repeat constructor.
Qed.

Lemma results_offer_redo_iff_missed_witness :
  exists g,
    game (app sample_results) = Some g /\
    Flashcards.has_next g = false /\
    index g = total g /\
    question_label (app sample_results) =
      "Quiz Complete!" +:+ newline +:+ newline +:+
      "Score: " +:+ pretty (score g) +:+ "/" +:+ pretty (total g) /\
    (offered cmd_redo_wrong (app sample_results) <-> missed_cards g ≠ []) /\
    offered cmd_show_deck_selector (app sample_results).
Proof.
  apply (results_offer_redo_iff_missed sample_results).
  - apply sample_results_reachable.
  - vm_compute. repeat constructor.
Defined.

(** X21.  Redo Wrong Answers, whenever it is offered, starts a review that
    has a card to show: the session is reset to the missed cards with score
    0, and the question of one of the missed cards is on the screen with
    its choices. *)
Theorem redo_wrong_shows_missed_card (w : World) :
  ui_reachable w ->
  offered cmd_redo_wrong (app w) ->
  exists g c,
    game (app w) = Some g /\
    missed_cards g ≠ [] /\
    let after := run_command cmd_redo_wrong w in
    let review := (Flashcards.reset_for_review (rng w) g).1 in
    after.1 = Done tt /\
    game (app after.2) = Some review /\
    total review = length (missed_cards g) /\
    score review = 0 /\
    Flashcards.current review = Ok c /\
    c ∈ missed_cards g /\
    question_label (app after.2) = question c /\
    btn_text <$> buttons (app after.2) ≡ₚ choices c.
Proof.
  intros Hw Hoff. pose proof (ui_reachable_inv w Hw) as [Hscreen Hgame].
  destruct (offered_results _ cmd_redo_wrong (or_introl eq_refl)
              Hscreen Hoff) as (g & Hg & _ & _ & _ & _ & _ & _ & Hmissed).
  specialize (Hmissed eq_refl).
  set (review := (Flashcards.reset_for_review (rng w) g).1).
  assert (cards review = (shuffle (missed_cards g) (rng w)).1 /\
          index review = 0 /\ score review = 0 /\
          total review = length (missed_cards g)) as (Hcards & Hidx & Hsc & Htot).
  { unfold review. rewrite reset_for_review_eq. simpl.
    by rewrite shuffle_length. }
  assert (exists c, Flashcards.current review = Ok c /\ c ∈ missed_cards g)
    as (c & Hc & Hin).
  { destruct (cards review) as [|c rest] eqn:Hcr.
    - exfalso. apply Hmissed, (shuffle_nil_inv _ (rng w)). congruence.
    - exists c. split.
      + apply current_Ok. by rewrite Hcr, Hidx.
      + rewrite <- (shuffle_Permutation _ (rng w)), <- Hcards. by left. }
  exists g, c. split; [done|]. split; [done|].
  cbv zeta. simpl. rewrite (redo_wrong_eq w g Hg). fold review.
  match goal with
  | |- context [FlashcardApp.next_question ?w1] =>
      destruct (next_question_question w1 review c)
        as (a' & -> & Hg' & _ & _ & _ & Hb & _ & Hq & _); [by destruct w as [[] ? ?]|done|]
  end.
  simpl. split_and!; try done.
  rewrite Hb, <- list_fmap_compose.
  match goal with
  | |- context [shuffle (choices c) ?r] =>
      rewrite <- (shuffle_Permutation (choices c) r) at 2;
      generalize (shuffle (choices c) r).1
  end.
  intros sh. assert ((btn_text ∘ answer_button) <$> sh = sh) as ->; [|done].
  induction sh as [|x sh IH]; [done|]. by rewrite fmap_cons, IH.
Qed.

Lemma redo_wrong_shows_missed_card_witness :
  exists g c,
    game (app sample_results) = Some g /\
    missed_cards g ≠ [] /\
    let after := run_command cmd_redo_wrong sample_results in
    let review := (Flashcards.reset_for_review (rng sample_results) g).1 in
    after.1 = Done tt /\
    game (app after.2) = Some review /\
    total review = length (missed_cards g) /\
    score review = 0 /\
    Flashcards.current review = Ok c /\
    c ∈ missed_cards g /\
    question_label (app after.2) = question c /\
    btn_text <$> buttons (app after.2) ≡ₚ choices c.
Proof.
  apply (redo_wrong_shows_missed_card sample_results).
  - apply sample_results_reachable.
  - vm_compute. constructor.
Defined.


(** X22.  When no deck is found at start-up the application shows one error
    box and calls [quit]; no button and no list is left, and nothing the
    user does after that changes anything. *)
Theorem no_decks_found (fs : FileSystem) (r : Rng) :
  find_decks fs "decks" = Ok [] ->
  let started := FlashcardApp.init fs r in
  started.1 = Done tt /\
  dialogs (app started.2) =
    [showerror "Error" "No JSON decks found in the 'decks' folder."] /\
  quit_called (app started.2) = true /\
  buttons (app started.2) = [] /\
  game (app started.2) = None /\
  forall ev,
    (forall fs', ev ≠ FilesChange fs') ->
    handle ev started.2 = (Done tt, started.2).
Proof.
  intros Hfind. cbv zeta. unfold FlashcardApp.init.
  destruct (show_deck_selector_empty (mkWorld FlashcardApp.created r fs) Hfind)
    as (a' & -> & Hg & _ & Hb & Hlb & Hd & Hq).
  simpl in *. split_and!; try done.
  intros [i|i| | |fs'] Hev; simpl.
  - unfold ui_bind, read. simpl. by rewrite Hb.
  - unfold update. simpl.
    destruct (deck_listbox a') eqn:Hl; try done. by destruct (Hlb _ _ Hl).
  - unfold update. simpl.
    destruct (deck_listbox a') eqn:Hl; try done. by destruct (Hlb _ _ Hl).
  - unfold ui_bind, read. simpl.
    destruct (deck_listbox a') eqn:Hl; try done. by destruct (Hlb _ _ Hl).
  - by destruct (Hev fs').
Qed.

Lemma no_decks_found_witness :
  let started :=
    FlashcardApp.init
      (mkFileSystem (fun _ => true) (fun _ => Ok ["notes.txt"])
                    (read_json sample_fs))
      sample_rng in
  started.1 = Done tt /\
  dialogs (app started.2) =
    [showerror "Error" "No JSON decks found in the 'decks' folder."] /\
  quit_called (app started.2) = true /\
  buttons (app started.2) = [] /\
  game (app started.2) = None /\
  forall ev,
    (forall fs', ev ≠ FilesChange fs') ->
    handle ev started.2 = (Done tt, started.2).
Proof.
  apply (no_decks_found
           (mkFileSystem (fun _ => true) (fun _ => Ok ["notes.txt"])
                         (read_json sample_fs))
           sample_rng).
  vm_compute. reflexivity.
Defined.

Lemma start_events w ev :
  ui_reachable w ->
  (exists items selection, deck_listbox (app w) = lb_live items selection) ->
  ev = Press 0 \/ ev = DoubleClick ->
  handle ev w = FlashcardApp.start_game w.
Proof.
  intros [Hscreen _]%ui_reachable_inv (items & selection & Hlb) [-> | ->];
    simpl; unfold ui_bind, read.
  - destruct (screen_live_selector _ _ _ Hscreen Hlb)
      as (_ & _ & _ & Hb & _).
    by rewrite Hb.
  - by rewrite Hlb.
Qed.

(** X23.  Start (the button or a double click) loads the deck whose name is
    selected in the list: item [i] of the list is the name of path [i] of
    [decks], and when that file loads, the session is a fresh one over the
    cards as loaded, the title label shows the title of the deck, and the
    question of the first card is on the screen with the score at 0. *)
Theorem start_game_loads_selected (w : World) items i ev :
  ui_reachable w ->
  deck_listbox (app w) = lb_live items (Some i) ->
  ev = Press 0 \/ ev = DoubleClick ->
  exists path,
    decks (app w) !! i = Some path /\
    items !! i = Some (FlashcardApp.deck_name path) /\
    forall title deck r',
      load_deck (files w) path (rng w) = (Ok (title, deck), r') ->
      exists c,
        (handle ev w).1 = Done tt /\
        game (app (handle ev w).2) = Some (Flashcards.init deck) /\
        title_label (app (handle ev w).2) = title /\
        head deck = Some c /\
        question_label (app (handle ev w).2) = question c /\
        score_label (app (handle ev w).2) =
          "Score: " +:+ pretty 0 +:+ "/" +:+ pretty (length deck).
Proof.
  intros Hw Hlb Hev. pose proof (ui_reachable_inv w Hw) as [Hscreen _].
  destruct (screen_live_selector _ _ _ Hscreen Hlb)
    as (_ & -> & Hsel & _).
  destruct (lookup_lt_is_Some_2 (decks (app w)) i) as [path Hpath];
    [by apply Hsel|].
  exists path. split; [done|]. split; [by rewrite list_lookup_fmap, Hpath|].
  intros title deck r' Hload.
  rewrite (start_events w ev) by eauto.
  rewrite (start_game_loads w _ i path title deck r') by done.
  destruct deck as [|c deck];
    [by destruct (load_deck_Ok_nonempty _ _ _ _ _ _ Hload)|].
  exists c.
  match goal with
  | |- context [FlashcardApp.next_question ?w1] =>
      destruct (next_question_question w1 (Flashcards.init (c :: deck)) c)
        as (a' & -> & Hg' & _ & _ & _ & _ & _ & Hq & Hs & _ & Ht);
        [by destruct w as [[] ? ?]|done|]
  end.
  simpl. by split_and!.
Qed.

Lemma start_game_loads_selected_witness :
  exists path,
    decks (app (handle (SelectItem 1) sample_selector).2) !! 1 = Some path /\
    ["Bio"; "math"; "zoo"] !! 1 = Some (FlashcardApp.deck_name path) /\
    forall title deck r',
      load_deck (files (handle (SelectItem 1) sample_selector).2) path
                (rng (handle (SelectItem 1) sample_selector).2) =
        (Ok (title, deck), r') ->
      exists c,
        (handle (Press 0) (handle (SelectItem 1) sample_selector).2).1 =
          Done tt /\
        game (app (handle (Press 0)
                     (handle (SelectItem 1) sample_selector).2).2) =
          Some (Flashcards.init deck) /\
        title_label (app (handle (Press 0)
                            (handle (SelectItem 1) sample_selector).2).2) =
          title /\
        head deck = Some c /\
        question_label (app (handle (Press 0)
                               (handle (SelectItem 1) sample_selector).2).2) =
          question c /\
        score_label (app (handle (Press 0)
                            (handle (SelectItem 1) sample_selector).2).2) =
          "Score: " +:+ pretty 0 +:+ "/" +:+ pretty (length deck).
Proof.
  apply (start_game_loads_selected
           (handle (SelectItem 1) sample_selector).2
           ["Bio"; "math"; "zoo"] 1 (Press 0)).
  - apply ui_handled, sample_selector_reachable.
  - vm_compute. reflexivity.
  - by left.
Defined.

(** X24.  Start with nothing selected in the list only shows the warning:
    the deck selector stays as it is, no deck is loaded and no random
    number is drawn. *)
Theorem start_game_without_selection (w : World) items ev :
  ui_reachable w ->
  deck_listbox (app w) = lb_live items None ->
  ev = Press 0 \/ ev = DoubleClick ->
  handle ev w =
  (Done tt,
   mkWorld
     (set_dialogs
        (dialogs (app w) ++
         [showwarning "Select Deck" "Please select a deck."]) (app w))
     (rng w) (files w)).
Proof.
  intros Hw Hlb Hev. rewrite (start_events w ev) by eauto.
  by apply (start_game_no_selection w items).
Qed.

Lemma start_game_without_selection_witness :
  handle DoubleClick (handle LoseSelection sample_selector).2 =
  (Done tt,
   mkWorld
     (set_dialogs
        (dialogs (app (handle LoseSelection sample_selector).2) ++
         [showwarning "Select Deck" "Please select a deck."])
        (app (handle LoseSelection sample_selector).2))
     (rng (handle LoseSelection sample_selector).2)
     (files (handle LoseSelection sample_selector).2)).
Proof.
  apply (start_game_without_selection
           (handle LoseSelection sample_selector).2 ["Bio"; "math"; "zoo"]).
  - apply ui_handled, sample_selector_reachable.
  - vm_compute. reflexivity.
  - by right.
Defined.


(** X25.  The deck selector, shown at start-up or by Restart Deck, lists
    the decks [find_decks] returns, by name and in the same order, with the
    first one selected and one button, Start; the labels of the quiz are
    blanked, and the session, if there is one, is left as it is. *)
Theorem deck_selector_lists_decks (w : World) (found : list string) :
  find_decks (files w) "decks" = Ok found ->
  found ≠ [] ->
  let after := FlashcardApp.show_deck_selector w in
  after.1 = Done tt /\
  decks (app after.2) = found /\
  deck_listbox (app after.2) =
    lb_live (FlashcardApp.deck_name <$> found) (Some 0) /\
  buttons (app after.2) = [mkButton "Start" cmd_start_game] /\
  title_label (app after.2) = "Select a Deck" /\
  question_label (app after.2) = "" /\
  score_label (app after.2) = "" /\
  explanation_area (app after.2) = false /\
  game (app after.2) = game (app w) /\
  dialogs (app after.2) = dialogs (app w).
Proof.
  intros Hfind Hne. cbv zeta.
  destruct (show_deck_selector_decks w found Hfind Hne)
    as (a' & -> & Hg & Hd & Hdl & _ & Hlb & Hb & Ht & Hq & Hs & He).
  simpl. by split_and!.
Qed.

Lemma deck_selector_lists_decks_witness :
  let after := FlashcardApp.show_deck_selector sample_results in
  after.1 = Done tt /\
  decks (app after.2) =
    ["decks/Bio.Json"; "decks/math.json"; "decks/zoo.JSON"] /\
  deck_listbox (app after.2) =
    lb_live (FlashcardApp.deck_name <$>
               ["decks/Bio.Json"; "decks/math.json"; "decks/zoo.JSON"])
            (Some 0) /\
  buttons (app after.2) = [mkButton "Start" cmd_start_game] /\
  title_label (app after.2) = "Select a Deck" /\
  question_label (app after.2) = "" /\
  score_label (app after.2) = "" /\
  explanation_area (app after.2) = false /\
  game (app after.2) = game (app sample_results) /\
  dialogs (app after.2) = dialogs (app sample_results).
Proof.
  apply (deck_selector_lists_decks sample_results
           ["decks/Bio.Json"; "decks/math.json"; "decks/zoo.JSON"]).
  - vm_compute. reflexivity.
  - discriminate.
Defined.

(** X26.  When the directory exists but cannot be listed, the exception
    of [os.listdir] leaves [show_deck_selector] after the screen has been
    cleared: no button and no deck list are left, and the list of decks is
    the one from before. *)
Theorem deck_selector_listing_fails (w : World) (e : exn) :
  isdir (files w) "decks" = true ->
  listdir (files w) "decks" = Raise e ->
  let after := FlashcardApp.show_deck_selector w in
  after.1 = Failed (Exc e) /\
  buttons (app after.2) = [] /\
  listbox_gone (app after.2) /\
  decks (app after.2) = decks (app w) /\
  game (app after.2) = game (app w) /\
  forall ev,
    (forall fs', ev ≠ FilesChange fs') ->
    handle ev after.2 = (Done tt, after.2).
Proof.
  intros Hdir Hls. cbv zeta.
  assert (find_decks (files w) "decks" = Raise e) as Hfind
    by (unfold find_decks; by rewrite Hdir, Hls).
  destruct (show_deck_selector_fails w e Hfind)
    as (a' & -> & Hg & Hb & Hlb & Hd).
  simpl. split_and!; try done.
  intros [i|i| | |fs'] Hev; simpl.
  - unfold ui_bind, read. simpl. by rewrite Hb.
  - unfold update. simpl.
    destruct (deck_listbox a') eqn:Hl; try done. by destruct (Hlb _ _ Hl).
  - unfold update. simpl.
    destruct (deck_listbox a') eqn:Hl; try done. by destruct (Hlb _ _ Hl).
  - unfold ui_bind, read. simpl.
    destruct (deck_listbox a') eqn:Hl; try done. by destruct (Hlb _ _ Hl).
  - by destruct (Hev fs').
Qed.

Lemma deck_selector_listing_fails_witness :
  let w :=
    mkWorld (app sample_results) sample_rng
      (mkFileSystem (fun _ => true)
         (fun _ => Raise (Exn OSError "Permission denied"))
         (read_json sample_fs)) in
  let after := FlashcardApp.show_deck_selector w in
  after.1 = Failed (Exc (Exn OSError "Permission denied")) /\
  buttons (app after.2) = [] /\
  listbox_gone (app after.2) /\
  decks (app after.2) = decks (app w) /\
  game (app after.2) = game (app w) /\
  forall ev,
    (forall fs', ev ≠ FilesChange fs') ->
    handle ev after.2 = (Done tt, after.2).
Proof.
  apply (deck_selector_listing_fails
           (mkWorld (app sample_results) sample_rng
              (mkFileSystem (fun _ => true)
                 (fun _ => Raise (Exn OSError "Permission denied"))
                 (read_json sample_fs)))
           (Exn OSError "Permission denied")); reflexivity.
Defined.

End InterfaceFacts.

(** ** The names in the deck list *)

Section DeckNames.
Implicit Types (s a b p stem ext : string) (ch : ascii).

Lemma rfind_app_None ch a b :
  rfind ch b = None -> rfind ch (a +:+ b) = rfind ch a.
Proof.
  intros Hb. induction a as [|x a IH]; [done|].
  rewrite str_app_cons. simpl. by rewrite IH.
Qed.

Lemma rfind_app_Some ch a b i :
  rfind ch b = Some i -> rfind ch (a +:+ b) = Some (String.length a + i).
Proof.
  intros Hb. induction a as [|x a IH]; [done|].
  rewrite str_app_cons. simpl. by rewrite IH.
Qed.

Lemma str_take_app a b : str_take (String.length a) (a +:+ b) = a.
Proof.
  induction a as [|x a IH]; [by destruct b|].
  rewrite str_app_cons. simpl. by rewrite IH.
Qed.

Lemma get_app_l k a b :
  k < String.length a -> String.get k (a +:+ b) = String.get k a.
Proof.
  revert k. induction a as [|x a IH]; intros k Hk; [simpl in Hk; lia|].
  rewrite str_app_cons. destruct k as [|k]; [done|].
  simpl. apply IH. simpl in Hk. lia.
Qed.

Lemma found_non_dot_intro p start count k :
  start <= k < start + count ->
  String.get k p ≠ Some "."%char ->
  found_non_dot p start count = true.
Proof.
  revert start. induction count as [|count IH]; intros start Hk Hget; [lia|].
  simpl. case_bool_decide as Hs; [done|].
  apply IH; [|done].
  destruct (decide (k = start)) as [->|]; [|lia].
  by destruct Hget.
Qed.

Lemma dir_prefix_shape directory :
  dir_prefix directory = "" \/ exists q, dir_prefix directory = q +:+ "/".
Proof.
  unfold dir_prefix. case_bool_decide as Hd; simpl.
  - left. done.
  - destruct (endswith directory "/") eqn:He; right.
    + by apply endswith_spec in He.
    + by exists directory.
Qed.

(** [basename] of a name behind a directory prefix is the name. *)
Lemma basename_join directory f :
  rfind "/" f = None -> startswith f "/" = false ->
  basename (join directory f) = f.
Proof.
  intros Hf Hstart. rewrite join_entry by done. unfold basename.
  destruct (dir_prefix_shape directory) as [-> | [q ->]].
  - change ("" +:+ f) with f. by rewrite Hf.
  - rewrite str_app_assoc.
    rewrite (rfind_app_Some _ q ("/" +:+ f) 0)
      by (rewrite str_app_cons; change ("" +:+ f) with f; simpl;
          by rewrite Hf).
    replace (String.length q + 0 + 1) with (String.length (q +:+ "/"))
      by (rewrite str_length_app; simpl; lia).
    rewrite <- str_app_assoc. apply str_drop_app.
Qed.

(** X27.  A deck is listed under its file name without the extension: for
    a file [stem.ext] in the directory, where neither part has a separator,
    [ext] has no dot and [stem] is not made of dots only, the name in the
    list is [stem]. *)
Theorem deck_name_strips_extension directory stem ext k ch :
  rfind "/" stem = None ->
  rfind "/" ext = None ->
  rfind "." ext = None ->
  String.get k stem = Some ch -> ch ≠ "."%char ->
  FlashcardApp.deck_name (join directory (stem +:+ "." +:+ ext)) = stem.
Proof.
  intros Hstem Hext Hdot Hget Hch.
  assert (k < String.length stem) as Hk.
  { clear -Hget. revert k Hget.
    induction stem as [|x stem IH]; intros [|k] Hget; simpl in *;
      try done; try lia.
    apply IH in Hget. lia. }
  assert (rfind "/" ("." +:+ ext) = None) as Hslash1
    by (rewrite str_app_cons; change ("" +:+ ext) with ext; simpl;
        by rewrite Hext).
  assert (rfind "/" (stem +:+ "." +:+ ext) = None) as Hslash
    by (by rewrite rfind_app_None).
  assert (startswith (stem +:+ "." +:+ ext) "/" = false) as Hstart.
  { destruct stem as [|x stem]; [done|].
    rewrite str_app_cons. unfold startswith.
    destruct (decide (x = "/"%char)) as [->|Hx].
    - simpl in Hstem. by destruct (rfind "/" stem).
    - cbn [String.prefix]. destruct (ascii_dec "/" x); [congruence|done]. }
  unfold FlashcardApp.deck_name.
  rewrite basename_join by done.
  unfold splitext. rewrite Hslash.
  rewrite (rfind_app_Some _ stem ("." +:+ ext) 0)
    by (rewrite str_app_cons; change ("" +:+ ext) with ext; simpl;
        by rewrite Hdot).
  rewrite Nat.add_0_r, Nat.sub_0_r. simpl.
  rewrite (found_non_dot_intro _ 0 (String.length stem) k);
    [|lia|rewrite get_app_l by done; rewrite Hget; congruence].
  simpl. apply str_take_app.
Qed.

Lemma deck_name_strips_extension_witness :
  FlashcardApp.deck_name (join "decks" ("math" +:+ "." +:+ "json")) = "math".
Proof.
  apply (deck_name_strips_extension "decks" "math" "json" 0 "m"%char);
    try reflexivity.
  discriminate.
Defined.

End DeckNames.
